(** * Shallow embedding of the dividend simulator of [src/app.py]

    The numeric engine of [app.py] lives in the Streamlit script:
    - [get_market_analysis] (price-history part): the growth estimate;
    - lines 133-141: the per-payout dividend ([div_per_payout_krw]);
    - TAB 1 (lines 199-252): the month-by-month simulation;
    - TAB 2 (lines 304-334): the goal solver.

    Numbers.  The values the provider returns ([history['Close'].iloc[-1]],
    the dividend sum, the exchange rate) are numpy [float64] scalars, so the
    arithmetic of the engine follows IEEE semantics: a division by zero does
    not raise but yields an infinity or NaN, and only [int()] of a non-finite
    value raises.  The file has two embeddings of the engine.

    - The first models a float as an exact rational extended with the
      three special values (rounding, overflow and signed zeros left out;
      a zero divisor counts as [+0.0]; finite results kept in lowest terms
      by [Qred]).  It serves the properties that do not depend on rounding:
      the shape of the loop, the series it records, the break-even month
      and the growth and dividend estimates.
    - The second ([float64], further below) models a float as an IEEE-754
      binary64 value with rounding, overflow, underflow and signed zeros,
      and Python's [float ** int] with its [OverflowError].  The goal solver
      of TAB 2 and the properties whose truth depends on rounding are
      stated on it. *)

From Stdlib Require Import QArith Qpower Qabs Qround Qreduction ZArith Lia List Bool.
From Stdlib Require Floats.SpecFloat.
Import ListNotations.

Open Scope Q_scope.

(** ** IEEE-like floats over exact rationals *)

Inductive F : Type :=
| Fin (q : Q)
| PInf
| NInf
| NaN.

Definition mkF (q : Q) : F := Fin (Qred q).

Definition inf_of (pos : bool) : F := if pos then PInf else NInf.

(** Sign of a non-zero, non-NaN value. *)
Definition fpos (x : F) : bool :=
  match x with
  | Fin a => negb (Qle_bool a 0)
  | PInf => true
  | _ => false
  end.

Definition fadd (x y : F) : F :=
  match x, y with
  | Fin a, Fin b => mkF (a + b)
  | NaN, _ | _, NaN => NaN
  | PInf, NInf | NInf, PInf => NaN
  | PInf, _ | _, PInf => PInf
  | NInf, _ | _, NInf => NInf
  end.

Definition fneg (x : F) : F :=
  match x with
  | Fin a => mkF (- a)
  | PInf => NInf
  | NInf => PInf
  | NaN => NaN
  end.

Definition fsub (x y : F) : F := fadd x (fneg y).

Definition fmul (x y : F) : F :=
  match x, y with
  | Fin a, Fin b => mkF (a * b)
  | NaN, _ | _, NaN => NaN
  | Fin a, _ => if Qeq_bool a 0 then NaN else inf_of (Bool.eqb (fpos x) (fpos y))
  | _, Fin b => if Qeq_bool b 0 then NaN else inf_of (Bool.eqb (fpos x) (fpos y))
  | _, _ => inf_of (Bool.eqb (fpos x) (fpos y))
  end.

Definition fdiv (x y : F) : F :=
  match x, y with
  | Fin a, Fin b =>
      if Qeq_bool b 0
      then (if Qeq_bool a 0 then NaN else inf_of (fpos x))
      else mkF (a / b)
  | NaN, _ | _, NaN => NaN
  | Fin _, _ => Fin 0
  | _, Fin b => if Qeq_bool b 0 then inf_of (fpos x) else inf_of (Bool.eqb (fpos x) (fpos y))
  | _, _ => NaN
  end.

(** [x <= y]: false as soon as one side is NaN. *)
Definition fle (x y : F) : bool :=
  match x, y with
  | Fin a, Fin b => Qle_bool a b
  | NaN, _ | _, NaN => false
  | NInf, _ => true
  | _, PInf => true
  | _, _ => false
  end.

(** [x == y]. *)
Definition feqb (x y : F) : bool :=
  match x, y with
  | Fin a, Fin b => Qeq_bool a b
  | PInf, PInf | NInf, NInf => true
  | _, _ => false
  end.

(** [x ** n] for a non-negative integer exponent. *)
Definition fpow (x : F) (n : nat) : F :=
  match n with
  | O => Fin 1
  | S _ =>
      match x with
      | Fin a => mkF (a ^ Z.of_nat n)
      | PInf => PInf
      | NInf => if Nat.even n then PInf else NInf
      | NaN => NaN
      end
  end.

Definition fnat (n : nat) : F := Fin (inject_Z (Z.of_nat n)).

(** Python exceptions the engine can raise. *)
Inductive PyError : Type :=
| ValueError      (* int(nan) *)
| OverflowError.  (* int(inf) *)

(** [int(x)]: truncation toward zero. *)
Definition py_int (x : F) : PyError + Z :=
  match x with
  | Fin q => inr (Z.quot (Qnum q) (Zpos (Qden q)))
  | NaN => inl ValueError
  | _ => inl OverflowError
  end.

Definition bind {E A B : Type} (m : E + A) (k : A -> E + B) : E + B :=
  match m with
  | inl e => inl e
  | inr a => k a
  end.

Notation "x <- m ;; k" := (bind m (fun x => k))
  (at level 61, m at next level, right associativity).

(** ** Payout frequencies: [freq_map] (lines 105-111) *)

Inductive Freq : Type :=
| Weekly        (* "주배당" *)
| Monthly       (* "월배당 (기본)" *)
| Quarterly     (* "분기배당" *)
| Semiannual    (* "반기배당" *)
| Annual.       (* "연배당" *)

Definition freq_count (f : Freq) : Z :=
  match f with
  | Weekly => 52
  | Monthly => 12
  | Quarterly => 4
  | Semiannual => 2
  | Annual => 1
  end.

Definition freq_interval (f : Freq) : nat :=
  match f with
  | Weekly => 1
  | Monthly => 1
  | Quarterly => 3
  | Semiannual => 6
  | Annual => 12
  end.

(** Lines 135-141: [(div_per_payout_krw, is_weekly_mode)]. *)
Definition payout_schedule (f : Freq) (annual_div_usd rate : F) : F * bool :=
  if Z.eqb (freq_count f) 52
  then (fdiv (fmul annual_div_usd rate) (Fin 12), true)
  else (fdiv (fmul annual_div_usd rate) (Fin (inject_Z (freq_count f))), false).

(** ** TAB 1: the month-by-month simulation (lines 199-252) *)

(** The values the loop reads from the enclosing script. *)
Record SimConfig : Type := {
  price_krw : F;
  div_per_payout_krw : F;
  is_weekly_mode : bool;
  interval : nat;            (* selected_freq["interval"] *)
  real_change_rate : F;      (* percent per month *)
  tax_rate : F;              (* percent *)
  months : nat;              (* years * 12 *)
  initial_invest_krw : F;
  monthly_contrib_krw : F
}.

Record SimState : Type := {
  current_shares : F;
  current_price : F;
  total_invested : F;
  accumulated_div : F;
  data_asset : list Z;
  data_invested : list F;
  break_even_month : option nat
}.

Section Simulation.
Variable c : SimConfig.

(** Lines 221-231. *)
Definition gross_div (i : nat) (st : SimState) : F :=
  if is_weekly_mode c then fmul (current_shares st) (div_per_payout_krw c)
  else if Nat.eqb (i mod interval c) 0
       then fmul (current_shares st) (div_per_payout_krw c)
       else Fin 0.

(** Line 233. *)
Definition net_div (i : nat) (st : SimState) : F :=
  fmul (gross_div i st) (fsub (Fin 1) (fdiv (tax_rate c) (Fin 100))).

(** Month 0 (lines 201-218). *)
Definition sim_init : PyError + SimState :=
  let shares := fdiv (initial_invest_krw c) (price_krw c) in
  a <- py_int (fmul shares (price_krw c)) ;;
  inr {| current_shares := shares;
         current_price := price_krw c;
         total_invested := initial_invest_krw c;
         accumulated_div := Fin 0;
         data_asset := [a];
         data_invested := [initial_invest_krw c];
         break_even_month := None |}.

(** One iteration [i >= 1] of the loop body (lines 220-252). *)
Definition sim_step (i : nat) (st : SimState) : PyError + SimState :=
  let net := net_div i st in
  let acc := fadd (accumulated_div st) net in
  let be := match break_even_month st with
            | None => if fle (total_invested st) acc then Some i else None
            | Some m => Some m
            end in
  let price := fmul (current_price st) (fadd (Fin 1) (fdiv (real_change_rate c) (Fin 100))) in
  let buy_amount := fadd net (monthly_contrib_krw c) in
  let new_shares := fdiv buy_amount price in
  let shares := fadd (current_shares st) new_shares in
  let total := fadd (total_invested st) (monthly_contrib_krw c) in
  asset <- py_int (fmul shares price) ;;
  inr {| current_shares := shares;
         current_price := price;
         total_invested := total;
         accumulated_div := acc;
         data_asset := data_asset st ++ [asset];
         data_invested := data_invested st ++ [total];
         break_even_month := be |}.

(** The state after iterations [0..k] of [for i in range(months + 1)]. *)
Fixpoint sim_run (k : nat) : PyError + SimState :=
  match k with
  | O => sim_init
  | S k' => st <- sim_run k' ;; sim_step (S k') st
  end.

End Simulation.

Record ProjectionResult : Type := {
  asset_series : list Z;
  invested_series : list F;
  break_even : option nat
}.

Definition simulate (c : SimConfig) : PyError + ProjectionResult :=
  st <- sim_run c (months c) ;;
  inr {| asset_series := data_asset st;
         invested_series := data_invested st;
         break_even := break_even_month st |}.

(** [project]: the schedule of lines 133-141 fed into the loop; [years]
    is the slider value, the horizon is [years * 12] months (line 200). *)
Definition sim_config (f : Freq) (annual_div_usd rate price_krw real_change_rate tax_rate : F)
    (years : nat) (initial monthly : F) : SimConfig :=
  let '(dpp, weekly) := payout_schedule f annual_div_usd rate in
  {| price_krw := price_krw;
     div_per_payout_krw := dpp;
     is_weekly_mode := weekly;
     interval := freq_interval f;
     real_change_rate := real_change_rate;
     tax_rate := tax_rate;
     months := years * 12;
     initial_invest_krw := initial;
     monthly_contrib_krw := monthly |}.

Definition project (f : Freq) (annual_div_usd rate price_krw real_change_rate tax_rate : F)
    (years : nat) (initial monthly : F) : PyError + ProjectionResult :=
  simulate (sim_config f annual_div_usd rate price_krw real_change_rate tax_rate years initial monthly).

(** Replaying the transition: month [m]'s break-even test, evaluated on the
    state after months [0..m-1] (the totals as of the start of month [m]'s
    step) with month [m]'s net dividend added to the accumulated dividends. *)
Definition be_cond (c : SimConfig) (m : nat) : bool :=
  match sim_run c (m - 1) with
  | inr st => fle (total_invested st) (fadd (accumulated_div st) (net_div c m st))
  | inl _ => false
  end.

(** The first month in [1..k] whose test holds. *)
Fixpoint first_true (p : nat -> bool) (k : nat) : option nat :=
  match k with
  | O => None
  | S k' =>
      match first_true p k' with
      | Some m => Some m
      | None => if p (S k') then Some (S k') else None
      end
  end.

(** ** The growth estimate of [get_market_analysis] (lines 27-58)

    A price sample: its day number (for [.days]), its calendar month
    (year * 12 + month, the bin of [resample('ME')]) and its close.  The two
    provider calls [stock.history(period=...)] and [stock.history(period="max")]
    are the two lists [hist_period] and [hist_max]. *)

Record Sample : Type := {
  s_day : Z;
  s_month : Z;
  s_close : Q
}.

Definition flt (x y : F) : bool := fle x y && negb (fle y x).

Definition is_nan (x : F) : bool :=
  match x with NaN => true | _ => false end.

(** [resample('ME').last()] on a chronological series: one value per
    calendar month from the first to the last, NaN for a month without
    samples. *)
Fixpoint resample_aux (cur_m : Z) (cur_v : F) (rest : list Sample) : list F :=
  match rest with
  | [] => [cur_v]
  | s :: rest' =>
      if Z.eqb (s_month s) cur_m then resample_aux cur_m (Fin (s_close s)) rest'
      else cur_v :: repeat NaN (Z.to_nat (s_month s - cur_m - 1))
                 ++ resample_aux (s_month s) (Fin (s_close s)) rest'
  end.

Definition resample_last (h : list Sample) : list F :=
  match h with
  | [] => []
  | s :: rest => resample_aux (s_month s) (Fin (s_close s)) rest
  end.

(** [pct_change()] with pandas 2's default [fill_method='pad']: NaNs are
    forward-filled, then [x / x.shift(1) - 1]; the first entry is NaN. *)
Fixpoint ffill (prev : F) (l : list F) : list F :=
  match l with
  | [] => []
  | x :: r => if is_nan x then prev :: ffill prev r else x :: ffill x r
  end.

Fixpoint pct_aux (prev : F) (l : list F) : list F :=
  match l with
  | [] => []
  | x :: r => fsub (fdiv x prev) (Fin 1) :: pct_aux x r
  end.

Definition pct_change (l : list F) : list F :=
  match ffill NaN l with
  | [] => []
  | x :: r => NaN :: pct_aux x r
  end.

Definition dropna (l : list F) : list F := filter (fun x => negb (is_nan x)) l.

Definition fsum (l : list F) : F := fold_right fadd (Fin 0) l.

(** [Series.mean()]: NaN for an empty series. *)
Definition fmean (l : list F) : F := fdiv (fsum l) (fnat (length l)).

Record MarketHistory : Type := {
  mh_price : F;          (* current_price_usd *)
  mh_growth : F;         (* avg_monthly_change, percent *)
  mh_short : bool;       (* is_data_short *)
  mh_years : F           (* actual_years *)
}.

Definition market_history (hist_period hist_max : list Sample) (period_years : nat)
    : MarketHistory :=
  let '(history, short0) :=
    match hist_period with
    | [] => (hist_max, true)
    | _ => (hist_period, false)
    end in
  match history with
  | [] => {| mh_price := Fin 0; mh_growth := Fin 0; mh_short := short0; mh_years := Fin 0 |}
  | s0 :: _ =>
      let sl := last history s0 in
      let actual_years := fdiv (Fin (inject_Z (s_day sl - s_day s0))) (Fin 365) in
      let short := short0 || flt actual_years (fmul (fnat period_years) (Fin (8 # 10))) in
      let monthly_returns := dropna (pct_change (resample_last history)) in
      {| mh_price := Fin (s_close sl);
         mh_growth := fmul (fmean monthly_returns) (Fin 100);
         mh_short := short;
         mh_years := actual_years |}
  end.

(** The estimate as the spec words it (§4.1): the last close of each month
    present in the series, the percentage change between consecutive such
    samples, and their arithmetic mean. *)
Fixpoint month_last_aux (cur_m : Z) (cur_v : Q) (rest : list Sample) : list Q :=
  match rest with
  | [] => [cur_v]
  | s :: rest' =>
      if Z.eqb (s_month s) cur_m then month_last_aux cur_m (s_close s) rest'
      else cur_v :: month_last_aux (s_month s) (s_close s) rest'
  end.

Definition month_last (h : list Sample) : list Q :=
  match h with
  | [] => []
  | s :: rest => month_last_aux (s_month s) (s_close s) rest
  end.

Fixpoint pct_changes (l : list Q) : list Q :=
  match l with
  | a :: ((b :: _) as r) => ((b / a - 1) * 100) :: pct_changes r
  | _ => []
  end.

Definition Qsum (l : list Q) : Q := fold_right Qplus 0 l.

Definition spec_growth (h : list Sample) : Q :=
  let ch := pct_changes (month_last h) in
  Qsum ch / inject_Z (Z.of_nat (length ch)).

(** The provider contract of §6: chronological samples with no calendar
    month skipped, and non-zero closes. *)
Fixpoint months_contiguous (cur_m : Z) (rest : list Sample) : Prop :=
  match rest with
  | [] => True
  | s :: rest' => (cur_m <= s_month s <= cur_m + 1)%Z /\ months_contiguous (s_month s) rest'
  end.

Definition well_formed_history (h : list Sample) : Prop :=
  match h with
  | [] => True
  | s :: rest => months_contiguous (s_month s) rest
  end /\ Forall (fun s => ~ s_close s == 0) h.

(** ** The dividend part of [get_market_analysis] (lines 61-77)

    A dividend event: its time stamp in seconds (the index after
    [tz_convert(None)]) and its amount. *)
Record Dividend : Type := {
  d_time : Z;
  d_amount : Q
}.

(** [timedelta(days=365)] in seconds. *)
Definition one_year : Z := 365 * 86400.

Definition div_amounts (l : list Dividend) : list F := map (fun d => Fin (d_amount d)) l.

(** [annual_div_sum]: the sum over the events at or after [last_date - 365
    days], [last_date] being the last entry of the index; if that sum is 0,
    the mean of all events times 12; 0 without any event. *)
Definition annual_div_sum (dividends : list Dividend) : F :=
  match dividends with
  | [] => Fin 0
  | d0 :: _ =>
      let last_date := d_time (last dividends d0) in
      let one_year_ago := (last_date - one_year)%Z in
      let last_1y_dividends := filter (fun d => Z.leb one_year_ago (d_time d)) dividends in
      let s := fsum (div_amounts last_1y_dividends) in
      if feqb s (Fin 0) && Nat.ltb 0 (length dividends)
      then fmul (fmean (div_amounts dividends)) (Fin 12)
      else s
  end.

(** ** TAB 1: the result section after the loop (lines 261-293) *)

(** [total_profit / final_invested] raises [ZeroDivisionError] on a zero
    divisor ([final_invested] is a Python number, not a numpy one). *)
Inductive AppError : Type :=
| SimError (e : PyError)
| ZeroDivisionError.

Record Tab1Summary : Type := {
  final_asset : Z;
  final_invested : F;
  total_profit : F;
  roi : F;
  price_impact : F;
  free_ride_shown : bool     (* [if break_even_month:], line 290 *)
}.

(** Python truthiness of [break_even_month]: [None] and [0] are false. *)
Definition py_truthy (b : option nat) : bool :=
  match b with
  | Some m => negb (Nat.eqb m 0)
  | None => false
  end.

Definition tab1_summary (c : SimConfig) : AppError + Tab1Summary :=
  match sim_run c (months c) with
  | inl e => inl (SimError e)
  | inr st =>
      let final_asset := last (data_asset st) 0%Z in
      let final_invested := last (data_invested st) (Fin 0) in
      let total_profit := fsub (Fin (inject_Z final_asset)) final_invested in
      if feqb final_invested (Fin 0) then inl ZeroDivisionError
      else
        inr {| final_asset := final_asset;
               final_invested := final_invested;
               total_profit := total_profit;
               roi := fmul (fdiv total_profit final_invested) (Fin 100);
               price_impact := fsub total_profit (accumulated_div st);
               free_ride_shown := py_truthy (break_even_month st) |}
  end.

(** ** The binary64 embedding

    The rational model above leaves rounding, overflow and underflow out.
    The properties that depend on them are stated on this second embedding
    of the same code, where a float is an IEEE-754 binary64 value
    ([SpecFloat.spec_float] with a 53-bit mantissa and exponent bound 1024,
    signed zeros included) and every operation rounds to nearest, ties to
    even, as Python floats and numpy [float64] scalars do. *)

Definition float64 : Type := SpecFloat.spec_float.

Definition f64add : float64 -> float64 -> float64 := SpecFloat.SFadd 53 1024.
Definition f64sub : float64 -> float64 -> float64 := SpecFloat.SFsub 53 1024.
Definition f64mul : float64 -> float64 -> float64 := SpecFloat.SFmul 53 1024.
Definition f64div : float64 -> float64 -> float64 := SpecFloat.SFdiv 53 1024.
Definition f64le : float64 -> float64 -> bool := SpecFloat.SFleb.
Definition f64eqb : float64 -> float64 -> bool := SpecFloat.SFeqb.

(** [float(z)] for a Python int (exact below [2^53], rounded above). *)
Definition f64_of_Z (z : Z) : float64 := SpecFloat.binary_normalize 53 1024 z 0 false.

(** The double nearest to a rational: the value of a decimal literal such
    as [0.8], and of the true division [a / b] of two Python ints. *)
Definition f64_of_Q (q : Q) : float64 :=
  let round (s : bool) (n : positive) :=
    let '(m, e, l) := SpecFloat.SFdiv_core_binary 53 1024 (Zpos n) 0 (Zpos (Qden q)) 0 in
    SpecFloat.binary_round_aux 53 1024 s m e l in
  match Qnum q with
  | Z0 => SpecFloat.S754_zero false
  | Zpos n => round false n
  | Zneg n => round true n
  end.

(** The exact value of a finite double (0 for the other values). *)
Definition f64_to_Q (x : float64) : Q :=
  match x with
  | SpecFloat.S754_finite s m e =>
      let v := if Z.leb 0 e then inject_Z (Z.shiftl (Zpos m) e) else Zpos m # Z.to_pos (Z.shiftl 1 (- e)) in
      if s then - v else v
  | _ => 0
  end.

(** [x ** n] for a non-negative integer exponent, correctly rounded (C's
    [pow], which CPython and numpy call); an overflow gives an infinity. *)
Definition f64pow (x : float64) (n : nat) : float64 :=
  match n with
  | O => f64_of_Z 1
  | S _ =>
      let s' (s : bool) := andb s (Nat.odd n) in
      match x with
      | SpecFloat.S754_finite s m e =>
          SpecFloat.binary_round 53 1024 (s' s) (Pos.pow m (Pos.of_nat n)) (e * Z.of_nat n)
      | SpecFloat.S754_zero s => SpecFloat.S754_zero (s' s)
      | SpecFloat.S754_infinity s => SpecFloat.S754_infinity (s' s)
      | SpecFloat.S754_nan => SpecFloat.S754_nan
      end
  end.

(** [x ** n] on a Python float: a finite base whose power overflows raises
    [OverflowError] (CPython's [float_pow]); numpy returns the infinity. *)
Definition py_pow64 (x : float64) (n : nat) : PyError + float64 :=
  match x, f64pow x n with
  | SpecFloat.S754_finite _ _ _, SpecFloat.S754_infinity _ => inl OverflowError
  | _, r => inr r
  end.

(** [int(x)]: truncation toward zero; [int(nan)] raises [ValueError] and
    [int(inf)] raises [OverflowError]. *)
Definition py_int64 (x : float64) : PyError + Z :=
  match x with
  | SpecFloat.S754_zero _ => inr 0%Z
  | SpecFloat.S754_finite s m e =>
      let v := if Z.leb 0 e then Z.shiftl (Zpos m) e else Z.shiftr (Zpos m) (- e) in
      inr (if s then Z.opp v else v)
  | SpecFloat.S754_infinity _ => inl OverflowError
  | SpecFloat.S754_nan => inl ValueError
  end.

(** A Python number: an int (the won amounts of the number inputs) or a
    float (Python or numpy). *)
Inductive PyNum : Type :=
| PyInt (z : Z)
| PyFloat (x : float64).

Definition pn_to_f64 (a : PyNum) : float64 :=
  match a with
  | PyInt z => f64_of_Z z
  | PyFloat x => x
  end.

(** [a + b]: exact on two ints, a float addition otherwise. *)
Definition pn_add (a b : PyNum) : PyNum :=
  match a, b with
  | PyInt x, PyInt y => PyInt (x + y)
  | _, _ => PyFloat (f64add (pn_to_f64 a) (pn_to_f64 b))
  end.

Definition pn_sub (a b : PyNum) : PyNum :=
  match a, b with
  | PyInt x, PyInt y => PyInt (x - y)
  | _, _ => PyFloat (f64sub (pn_to_f64 a) (pn_to_f64 b))
  end.

(** [a / b] on Python numbers: a zero divisor raises [ZeroDivisionError];
    two ints divide exactly, then round once. *)
Definition pn_truediv (a b : PyNum) : option float64 :=
  match a, b with
  | _, PyInt 0 => None
  | _, PyFloat (SpecFloat.S754_zero _) => None
  | PyInt x, PyInt y => Some (f64_of_Q (inject_Z x / inject_Z y))
  | _, _ => Some (f64div (pn_to_f64 a) (pn_to_f64 b))
  end.

(** [x >= a] for a float [x]: the int side is converted to [float64]. *)
Definition pn_ge (x : float64) (a : PyNum) : bool := f64le (pn_to_f64 a) x.

(** *** Lines 133-141 *)
Definition payout_schedule64 (f : Freq) (annual_div_usd rate : float64) : float64 * bool :=
  if Z.eqb (freq_count f) 52
  then (f64div (f64mul annual_div_usd rate) (f64_of_Z 12), true)
  else (f64div (f64mul annual_div_usd rate) (f64_of_Z (freq_count f)), false).

(** *** TAB 1 (lines 199-252) *)

(** [price_krw = price_usd * rate] is a numpy [float64] (the last close of
    a non-empty history), so a division by it does not raise.  (With an
    empty history it is the Python [0.0] and line 204 raises
    [ZeroDivisionError], an error as here, where [int(nan)] raises.)  The
    two won amounts are Python numbers. *)
Record SimConfig64 : Type := {
  c64_price_krw : float64;
  c64_div_per_payout_krw : float64;
  c64_is_weekly_mode : bool;
  c64_interval : nat;
  c64_real_change_rate : float64;
  c64_tax_rate : float64;
  c64_months : nat;
  c64_initial_invest_krw : PyNum;
  c64_monthly_contrib_krw : PyNum
}.

Record SimState64 : Type := {
  s64_current_shares : float64;
  s64_current_price : float64;
  s64_total_invested : PyNum;
  s64_accumulated_div : float64;
  s64_data_asset : list Z;
  s64_data_invested : list PyNum;
  s64_break_even_month : option nat
}.

Section Simulation64.
Variable c : SimConfig64.

(** Lines 221-231; the int [0] of a month without payout is [0.0] once
    multiplied by a float. *)
Definition gross_div64 (i : nat) (st : SimState64) : float64 :=
  if c64_is_weekly_mode c then f64mul (s64_current_shares st) (c64_div_per_payout_krw c)
  else if Nat.eqb (i mod c64_interval c) 0
       then f64mul (s64_current_shares st) (c64_div_per_payout_krw c)
       else f64_of_Z 0.

(** Line 233. *)
Definition net_div64 (i : nat) (st : SimState64) : float64 :=
  f64mul (gross_div64 i st) (f64sub (f64_of_Z 1) (f64div (c64_tax_rate c) (f64_of_Z 100))).

(** Month 0 (lines 201-218). *)
Definition sim_init64 : PyError + SimState64 :=
  let shares := f64div (pn_to_f64 (c64_initial_invest_krw c)) (c64_price_krw c) in
  a <- py_int64 (f64mul shares (c64_price_krw c)) ;;
  inr {| s64_current_shares := shares;
         s64_current_price := c64_price_krw c;
         s64_total_invested := c64_initial_invest_krw c;
         s64_accumulated_div := f64_of_Z 0;
         s64_data_asset := [a];
         s64_data_invested := [c64_initial_invest_krw c];
         s64_break_even_month := None |}.

(** One iteration [i >= 1] of the loop body (lines 220-252). *)
Definition sim_step64 (i : nat) (st : SimState64) : PyError + SimState64 :=
  let net := net_div64 i st in
  let acc := f64add (s64_accumulated_div st) net in
  let be := match s64_break_even_month st with
            | None => if pn_ge acc (s64_total_invested st) then Some i else None
            | Some m => Some m
            end in
  let price := f64mul (s64_current_price st)
                      (f64add (f64_of_Z 1) (f64div (c64_real_change_rate c) (f64_of_Z 100))) in
  let buy_amount := f64add net (pn_to_f64 (c64_monthly_contrib_krw c)) in
  let new_shares := f64div buy_amount price in
  let shares := f64add (s64_current_shares st) new_shares in
  let total := pn_add (s64_total_invested st) (c64_monthly_contrib_krw c) in
  asset <- py_int64 (f64mul shares price) ;;
  inr {| s64_current_shares := shares;
         s64_current_price := price;
         s64_total_invested := total;
         s64_accumulated_div := acc;
         s64_data_asset := s64_data_asset st ++ [asset];
         s64_data_invested := s64_data_invested st ++ [total];
         s64_break_even_month := be |}.

Fixpoint sim_run64 (k : nat) : PyError + SimState64 :=
  match k with
  | O => sim_init64
  | S k' => st <- sim_run64 k' ;; sim_step64 (S k') st
  end.

End Simulation64.

Record ProjectionResult64 : Type := {
  asset_series64 : list Z;
  invested_series64 : list PyNum;
  break_even64 : option nat
}.

Definition sim_config64 (f : Freq) (annual_div_usd rate price_krw real_change_rate tax_rate : float64)
    (years : nat) (initial monthly : PyNum) : SimConfig64 :=
  let '(dpp, weekly) := payout_schedule64 f annual_div_usd rate in
  {| c64_price_krw := price_krw;
     c64_div_per_payout_krw := dpp;
     c64_is_weekly_mode := weekly;
     c64_interval := freq_interval f;
     c64_real_change_rate := real_change_rate;
     c64_tax_rate := tax_rate;
     c64_months := years * 12;
     c64_initial_invest_krw := initial;
     c64_monthly_contrib_krw := monthly |}.

Definition project64 (f : Freq) (annual_div_usd rate price_krw real_change_rate tax_rate : float64)
    (years : nat) (initial monthly : PyNum) : PyError + ProjectionResult64 :=
  let c := sim_config64 f annual_div_usd rate price_krw real_change_rate tax_rate years initial monthly in
  st <- sim_run64 c (c64_months c) ;;
  inr {| asset_series64 := s64_data_asset st;
         invested_series64 := s64_data_invested st;
         break_even64 := s64_break_even_month st |}.

(** *** The TAB 1 result section (lines 261-293), for the int amounts of
    the two number inputs. *)
Record Tab1Summary64 : Type := {
  final_asset64 : Z;
  final_invested64 : PyNum;
  total_profit64 : PyNum;
  roi64 : float64;
  price_impact64 : float64;
  free_ride_shown64 : bool
}.

Definition tab1_summary64 (f : Freq) (annual_div_usd rate price_krw real_change_rate tax_rate : float64)
    (years : nat) (initial_invest_krw monthly_contrib_krw : Z) : AppError + Tab1Summary64 :=
  let c := sim_config64 f annual_div_usd rate price_krw real_change_rate tax_rate years
                        (PyInt initial_invest_krw) (PyInt monthly_contrib_krw) in
  match sim_run64 c (c64_months c) with
  | inl e => inl (SimError e)
  | inr st =>
      let final_asset := last (s64_data_asset st) 0%Z in
      let final_invested := last (s64_data_invested st) (PyInt 0) in
      let total_profit := pn_sub (PyInt final_asset) final_invested in
      match pn_truediv total_profit final_invested with
      | None => inl ZeroDivisionError
      | Some q =>
          inr {| final_asset64 := final_asset;
                 final_invested64 := final_invested;
                 total_profit64 := total_profit;
                 roi64 := f64mul q (f64_of_Z 100);
                 price_impact64 := f64sub (pn_to_f64 total_profit) (s64_accumulated_div st);
                 free_ride_shown64 := py_truthy (s64_break_even_month st) |}
      end
  end.

(** *** TAB 2 (lines 304-334)

    [real_change_rate] and [tax_rate] are Python floats (number inputs), so
    [(1 + real_change_rate/100) ** future_months] is a Python power that
    raises [OverflowError]; the dividend and price are numpy scalars, so
    the divisions after the guard do not raise.  The target is the int of
    its number input. *)
Record GoalInput64 : Type := {
  g64_price_krw : float64;
  g64_annual_div_usd : float64;
  g64_rate : float64;
  g64_real_change_rate : float64;
  g64_tax_rate : float64;
  g64_years : nat;
  g64_target_monthly_div_input : Z
}.

Record GoalPlan64 : Type := {
  est_future_price64 : float64;
  est_future_annual_dps64 : float64;
  needed_shares64 : float64;
  needed_asset_future64 : float64;
  total_monthly_return_rate64 : float64;
  monthly_savings_needed64 : float64
}.

(** Line 319's message, or a Python exception caught by the handler of
    line 358: both are reported to the user and no plan is shown. *)
Inductive GoalError64 : Type :=
| DividendVanishes64
| GoalPyError (e : PyError).

Definition solve_goal64 (g : GoalInput64) : GoalError64 + GoalPlan64 :=
  let future_months := (g64_years g * 12)%nat in
  match py_pow64 (f64add (f64_of_Z 1) (f64div (g64_real_change_rate g) (f64_of_Z 100))) future_months with
  | inl e => inl (GoalPyError e)
  | inr decay_factor =>
      let est_future_price := f64mul (g64_price_krw g) decay_factor in
      let current_annual_dps := f64mul (g64_annual_div_usd g) (g64_rate g) in
      let est_future_annual_dps := f64mul current_annual_dps decay_factor in
      let target_annual_div_won := (g64_target_monthly_div_input g * 10000 * 12)%Z in
      if f64le est_future_annual_dps (f64_of_Z 0) then inl DividendVanishes64
      else
        let needed_shares := f64div (f64_of_Z target_annual_div_won)
              (f64mul est_future_annual_dps (f64sub (f64_of_Z 1) (f64div (g64_tax_rate g) (f64_of_Z 100)))) in
        let needed_asset_future := f64mul needed_shares est_future_price in
        let monthly_yield_rate :=
              f64mul (f64div (f64div current_annual_dps (f64_of_Z 12)) (g64_price_krw g)) (f64_of_Z 100) in
        let total_monthly_return_rate :=
              f64div (f64add (g64_real_change_rate g) monthly_yield_rate) (f64_of_Z 100) in
        let monthly_savings_needed :=
              if f64eqb total_monthly_return_rate (f64_of_Z 0)
              then f64div needed_asset_future (f64_of_Z (Z.of_nat future_months))
              else f64div (f64mul needed_asset_future total_monthly_return_rate)
                          (f64sub (f64pow (f64add (f64_of_Z 1) total_monthly_return_rate) future_months)
                                  (f64_of_Z 1)) in
        inr {| est_future_price64 := est_future_price;
               est_future_annual_dps64 := est_future_annual_dps;
               needed_shares64 := needed_shares;
               needed_asset_future64 := needed_asset_future;
               total_monthly_return_rate64 := total_monthly_return_rate;
               monthly_savings_needed64 := monthly_savings_needed |}
  end.


(** Sign classes used by the properties of [project64]: a value whose sign
    bit is clear (NaN included), and a zero of either sign or NaN. *)
Definition f64_nonneg (x : float64) : bool :=
  match x with
  | SpecFloat.S754_zero s | SpecFloat.S754_infinity s | SpecFloat.S754_finite s _ _ => negb s
  | SpecFloat.S754_nan => true
  end.

Definition f64_zero_or_nan (x : float64) : bool :=
  match x with
  | SpecFloat.S754_zero _ | SpecFloat.S754_nan => true
  | _ => false
  end.

(** ** Generic lemmas *)

Local Open Scope nat_scope.

Lemma bind_inr {E A B} (m : E + A) (k : A -> E + B) (b : B) :
  bind m k = inr b -> exists a, m = inr a /\ k a = inr b.
Proof. destruct m as [e|a]; simpl; [discriminate | eauto]. Qed.

Lemma sim_run_S_inv c k st' :
  sim_run c (S k) = inr st' ->
  exists st, sim_run c k = inr st /\ sim_step c (S k) st = inr st'.
Proof. simpl. apply bind_inr. Qed.

Lemma sim_step_fields c i st st' :
  sim_step c i st = inr st' ->
  accumulated_div st' = fadd (accumulated_div st) (net_div c i st) /\
  length (data_asset st') = S (length (data_asset st)) /\
  length (data_invested st') = S (length (data_invested st)) /\
  break_even_month st' =
    match break_even_month st with
    | None => if fle (total_invested st) (fadd (accumulated_div st) (net_div c i st))
              then Some i else None
    | Some m => Some m
    end.
Proof.
  unfold sim_step. intros H. apply bind_inr in H as [a [_ H]].
  injection H as <-. simpl. rewrite !length_app. simpl.
  repeat split; lia.
Qed.

Lemma sim_run_lengths c k st :
  sim_run c k = inr st ->
  length (data_asset st) = S k /\ length (data_invested st) = S k.
Proof.
  revert st. induction k as [|k IH]; intros st H.
  - simpl in H. unfold sim_init in H. apply bind_inr in H as [a [_ H]].
    injection H as <-. simpl. auto.
  - apply sim_run_S_inv in H as [st0 [H0 Hs]].
    apply sim_step_fields in Hs as (_ & Ha & Hi & _).
    destruct (IH st0 H0). lia.
Qed.

Lemma sim_run_break_even c k st :
  sim_run c k = inr st -> break_even_month st = first_true (be_cond c) k.
Proof.
  revert st. induction k as [|k IH]; intros st H.
  - simpl in H. unfold sim_init in H. apply bind_inr in H as [a [_ H]].
    injection H as <-. reflexivity.
  - apply sim_run_S_inv in H as [st0 [H0 Hs]].
    apply sim_step_fields in Hs as (_ & _ & _ & Hb).
    rewrite Hb, (IH st0 H0). simpl.
    replace (be_cond c (S k)) with (fle (total_invested st0)
      (fadd (accumulated_div st0) (net_div c (S k) st0))); [reflexivity|].
    unfold be_cond. simpl. rewrite Nat.sub_0_r, H0. reflexivity.
Qed.

Lemma first_true_spec (p : nat -> bool) k :
  (forall m, first_true p k = Some m <->
             (1 <= m <= k /\ p m = true /\ forall j, 1 <= j < m -> p j = false)) /\
  (first_true p k = None <-> forall m, 1 <= m <= k -> p m = false).
Proof.
  induction k as [|k [IHs IHn]]; simpl.
  - split; [intros m; split; [discriminate | lia] | split; [intros _ m; lia | reflexivity]].
  - destruct (first_true p k) as [m0|] eqn:E.
    + destruct (proj1 (IHs m0) eq_refl) as (Hm0 & Hp0 & Hlt).
      split.
      * intros m. split.
        -- intros Hm. injection Hm as <-. repeat split; auto; lia.
        -- intros (Hm & Hp & Hb). f_equal.
           destruct (Nat.lt_trichotomy m m0) as [Hl|[Hl|Hl]]; auto.
           ++ rewrite Hlt in Hp by lia. discriminate.
           ++ rewrite Hb in Hp0 by lia. discriminate.
      * split; [discriminate|]. intros Hall. rewrite Hall in Hp0 by lia. discriminate.
    + assert (Hnone : forall m, 1 <= m <= k -> p m = false) by (apply IHn; reflexivity).
      destruct (p (S k)) eqn:Ep.
      * split.
        -- intros m. split.
           ++ intros Hm. injection Hm as <-. repeat split; auto; try lia.
              intros j Hj. apply Hnone. lia.
           ++ intros (Hm & Hp & Hb). f_equal.
              destruct (Nat.eq_dec m (S k)) as [|Hne]; auto.
              rewrite Hnone in Hp by lia. discriminate.
        -- split; [discriminate|]. intros Hall. rewrite Hall in Ep by lia. discriminate.
      * split.
        -- intros m. split; [discriminate|].
           intros (Hm & Hp & _).
           destruct (Nat.eq_dec m (S k)) as [->|Hne]; [congruence|].
           rewrite Hnone in Hp by lia. discriminate.
        -- split; [|reflexivity]. intros _ m Hm.
           destruct (Nat.eq_dec m (S k)) as [->|Hne]; auto. apply Hnone. lia.
Qed.

Lemma sim_config_months f a r p g t y i m :
  months (sim_config f a r p g t y i m) = y * 12.
Proof. unfold sim_config. destruct (payout_schedule f a r). reflexivity. Qed.

Lemma project_inv f a r p g t y i m res :
  project f a r p g t y i m = inr res ->
  exists st, sim_run (sim_config f a r p g t y i m) (y * 12) = inr st /\
             asset_series res = data_asset st /\
             invested_series res = data_invested st /\
             break_even res = break_even_month st.
Proof.
  unfold project, simulate. rewrite sim_config_months. intros H.
  apply bind_inr in H as [st [Hst H]]. injection H as <-. eauto.
Qed.

Lemma sim_run_zero_price c k :
  price_krw c = Fin 0 -> sim_run c k = inl ValueError.
Proof.
  intros Hp. induction k as [|k IH]; simpl.
  - unfold sim_init. rewrite Hp.
    destruct (initial_invest_krw c) as [q| | |]; simpl; try reflexivity.
    destruct (Qeq_bool q 0); simpl; [reflexivity|].
    destruct (negb (Qle_bool q 0)); reflexivity.
  - rewrite IH. reflexivity.
Qed.

(** ** Claims about the simulation *)

(** C1: the recorded break-even month is the first month [m] in
    [1..horizon] at which the accumulated net dividends, month [m]'s net
    dividend included, reach the total invested as of the start of month
    [m]'s step (before month [m]'s contribution); it is absent when no such
    month exists.  [be_cond] replays the transition to evaluate the test. *)
Theorem project_break_even_first f a r p g t y i m res :
  project f a r p g t y i m = inr res ->
  (forall k, break_even res = Some k <->
     (1 <= k <= y * 12 /\ be_cond (sim_config f a r p g t y i m) k = true /\
      forall j, 1 <= j < k -> be_cond (sim_config f a r p g t y i m) j = false)) /\
  (break_even res = None <->
     forall k, 1 <= k <= y * 12 -> be_cond (sim_config f a r p g t y i m) k = false).
Proof.
  intros H. apply project_inv in H as (st & Hst & _ & _ & Hbe).
  rewrite Hbe, (sim_run_break_even _ _ _ Hst).
  apply first_true_spec.
Qed.

Lemma project_break_even_first_witness :
  exists res,
    project Monthly (Fin 1200) (Fin 1) (Fin 100) (Fin 0) (Fin 15) 1 (Fin 1000) (Fin 50) = inr res /\
    break_even res = Some 2 /\
    (forall k, break_even res = Some k <->
       (1 <= k <= 1 * 12 /\
        be_cond (sim_config Monthly (Fin 1200) (Fin 1) (Fin 100) (Fin 0) (Fin 15) 1 (Fin 1000) (Fin 50)) k = true /\
        forall j, 1 <= j < k ->
          be_cond (sim_config Monthly (Fin 1200) (Fin 1) (Fin 100) (Fin 0) (Fin 15) 1 (Fin 1000) (Fin 50)) j = false)).
Proof.
  destruct (project Monthly (Fin 1200) (Fin 1) (Fin 100) (Fin 0) (Fin 15) 1 (Fin 1000) (Fin 50))
    as [e|res] eqn:Hp; [vm_compute in Hp; discriminate|].
  exists res. split; [reflexivity|].
  pose proof (project_break_even_first Monthly (Fin 1200) (Fin 1) (Fin 100) (Fin 0) (Fin 15) 1 (Fin 1000) (Fin 50) res Hp)
    as [Hsome _].
  split; [|exact Hsome].
  vm_compute in Hp. injection Hp as <-. reflexivity.
Defined.

(** C2: for a non-weekly frequency, month [i] in [1..horizon] pays the
    gross dividend [sharesHeld * perPayoutAmount] (shares held at the start
    of the step, before the price growth) exactly when [i mod intervalMonths
    = 0] and 0 otherwise; that gross dividend, net of tax, is what month [i]
    adds to the accumulated dividends; month 0 pays nothing. *)
Theorem project_gross_dividend_schedule f a r p g t y i m :
  f <> Weekly ->
  (forall st0, sim_run (sim_config f a r p g t y i m) 0 = inr st0 -> accumulated_div st0 = Fin 0) /\
  (forall k st st', 1 <= k <= y * 12 ->
     sim_run (sim_config f a r p g t y i m) (k - 1) = inr st ->
     sim_run (sim_config f a r p g t y i m) k = inr st' ->
     gross_div (sim_config f a r p g t y i m) k st =
       (if Nat.eqb (k mod freq_interval f) 0
        then fmul (current_shares st) (fdiv (fmul a r) (Fin (inject_Z (freq_count f))))
        else Fin 0) /\
     accumulated_div st' =
       fadd (accumulated_div st)
            (fmul (gross_div (sim_config f a r p g t y i m) k st) (fsub (Fin 1) (fdiv t (Fin 100))))).
Proof.
  intros Hf. split.
  - intros st0 H. simpl in H. unfold sim_init in H.
    apply bind_inr in H as [x [_ H]]. injection H as <-. reflexivity.
  - intros k st st' Hk H1 H2.
    destruct k as [|k]; [lia|]. rewrite Nat.sub_succ, Nat.sub_0_r in H1.
    apply sim_run_S_inv in H2 as [st0 [H0 Hs]].
    rewrite H1 in H0. injection H0 as <-.
    apply sim_step_fields in Hs as (Hacc & _).
    split.
    + unfold gross_div, sim_config, payout_schedule.
      destruct f; try congruence; reflexivity.
    + rewrite Hacc. unfold net_div.
      unfold sim_config at 2. destruct (payout_schedule f a r). reflexivity.
Qed.

Lemma project_gross_dividend_schedule_witness :
  Quarterly <> Weekly /\
  exists st st',
    sim_run (sim_config Quarterly (Fin 4) (Fin 1) (Fin 10) (Fin 0) (Fin 15) 1 (Fin 100) (Fin 10)) (2 - 1) = inr st /\
    sim_run (sim_config Quarterly (Fin 4) (Fin 1) (Fin 10) (Fin 0) (Fin 15) 1 (Fin 100) (Fin 10)) 2 = inr st' /\
    gross_div (sim_config Quarterly (Fin 4) (Fin 1) (Fin 10) (Fin 0) (Fin 15) 1 (Fin 100) (Fin 10)) 2 st = Fin 0.
Proof.
  split; [discriminate|].
  destruct (sim_run (sim_config Quarterly (Fin 4) (Fin 1) (Fin 10) (Fin 0) (Fin 15) 1 (Fin 100) (Fin 10)) 1)
    as [e|st] eqn:H1; [vm_compute in H1; discriminate|].
  destruct (sim_run (sim_config Quarterly (Fin 4) (Fin 1) (Fin 10) (Fin 0) (Fin 15) 1 (Fin 100) (Fin 10)) 2)
    as [e|st'] eqn:H2; [vm_compute in H2; discriminate|].
  exists st, st'. split; [exact H1|]. split; [reflexivity|].
  destruct (proj2 (project_gross_dividend_schedule Quarterly (Fin 4) (Fin 1) (Fin 10) (Fin 0) (Fin 15) 1 (Fin 100) (Fin 10)
                ltac:(discriminate)) 2 st st' ltac:(lia) H1 H2) as [Hg _].
  rewrite Hg. reflexivity.
Defined.

(** C6: with a starting unit price of 0, [project] fails at month 0: the
    share count [initial / 0.0] is infinite or NaN, [int(shares * 0.0)]
    raises [ValueError] (with Python floats the division itself raises
    [ZeroDivisionError]), and the top-level [except] reports it; no result
    is returned. *)
Theorem project_zero_price_fails f a r g t y i m :
  project f a r (Fin 0) g t y i m = inl ValueError.
Proof.
  unfold project, simulate. rewrite sim_run_zero_price; [reflexivity|].
  unfold sim_config. destruct (payout_schedule f a r). reflexivity.
Qed.

(** C7: the per-payout amount is the annual dividend (converted at [rate])
    divided by the number of payouts per year, except for the weekly
    selection (52 per year), where it is the annual amount divided by 12. *)
Theorem payout_schedule_per_frequency f a r :
  payout_schedule f a r =
    match f with
    | Weekly => (fdiv (fmul a r) (Fin 12), true)
    | _ => (fdiv (fmul a r) (Fin (inject_Z (freq_count f))), false)
    end /\
  map freq_count [Weekly; Monthly; Quarterly; Semiannual; Annual] = [52; 12; 4; 2; 1]%Z.
Proof. destruct f; split; reflexivity. Qed.

(** C9: a returned projection has [horizon + 1] asset entries and as many
    invested entries (month 0 plus one per simulated month). *)
Theorem project_series_length f a r p g t y i m res :
  project f a r p g t y i m = inr res ->
  length (asset_series res) = y * 12 + 1 /\ length (invested_series res) = y * 12 + 1.
Proof.
  intros H. apply project_inv in H as (st & Hst & Ha & Hi & _).
  rewrite Ha, Hi. apply sim_run_lengths in Hst. lia.
Qed.

Lemma project_series_length_witness :
  exists res,
    project Quarterly (Fin 4) (Fin 1) (Fin 10) (Fin 0) (Fin 15) 2 (Fin 100) (Fin 10) = inr res /\
    length (asset_series res) = 2 * 12 + 1 /\ length (invested_series res) = 2 * 12 + 1.
Proof.
  destruct (project Quarterly (Fin 4) (Fin 1) (Fin 10) (Fin 0) (Fin 15) 2 (Fin 100) (Fin 10))
    as [e|res] eqn:Hp; [vm_compute in Hp; discriminate|].
  exists res. split; [reflexivity|].
  exact (project_series_length Quarterly (Fin 4) (Fin 1) (Fin 10) (Fin 0) (Fin 15) 2 (Fin 100) (Fin 10) res Hp).
Defined.

(** C10: the weekly selection and the monthly selection give the same
    projection: both pay [annual / 12] per share in every month. *)
Theorem project_weekly_eq_monthly a r p g t y i m :
  project Weekly a r p g t y i m = project Monthly a r p g t y i m.
Proof.
  unfold project, simulate.
  set (cw := sim_config Weekly a r p g t y i m).
  set (cm := sim_config Monthly a r p g t y i m).
  assert (Hstep : forall k st, sim_step cw k st = sim_step cm k st).
  { intros k st. unfold sim_step, net_div, gross_div, cw, cm, sim_config, payout_schedule.
    cbn [freq_count Z.eqb Pos.eqb freq_interval is_weekly_mode interval div_per_payout_krw
         tax_rate real_change_rate monthly_contrib_krw].
    rewrite Nat.mod_1_r. reflexivity. }
  assert (Hrun : forall k, sim_run cw k = sim_run cm k).
  { induction k as [|k IH]; simpl; [reflexivity|].
    rewrite IH. destruct (sim_run cm k); simpl; auto. }
  rewrite Hrun. reflexivity.
Qed.

(** ** Finite arithmetic of the float model *)

Local Open Scope Q_scope.

Lemma mkF_eq a b : a == b -> mkF a = mkF b.
Proof. intros H. unfold mkF. f_equal. apply Qred_complete. exact H. Qed.

Lemma fadd_fin a b : fadd (Fin a) (Fin b) = mkF (a + b).
Proof. reflexivity. Qed.

Lemma fmul_fin a b : fmul (Fin a) (Fin b) = mkF (a * b).
Proof. reflexivity. Qed.

Lemma fsub_fin a b : fsub (Fin a) (Fin b) = mkF (a - b).
Proof.
  unfold fsub, fneg, mkF. rewrite fadd_fin. apply mkF_eq.
  rewrite Qred_correct. reflexivity.
Qed.

Lemma fdiv_fin a b : ~ b == 0 -> fdiv (Fin a) (Fin b) = mkF (a / b).
Proof.
  intros Hb. unfold fdiv. destruct (Qeq_bool b 0) eqn:E; [|reflexivity].
  apply Qeq_bool_iff in E. contradiction.
Qed.

Lemma fpow_fin a n : fpow (Fin a) n = mkF (a ^ Z.of_nat n).
Proof. destruct n; reflexivity. Qed.

Lemma fle_fin a b : fle (Fin a) (Fin b) = Qle_bool a b.
Proof. reflexivity. Qed.

Lemma feqb_fin a b : feqb (Fin a) (Fin b) = Qeq_bool a b.
Proof. reflexivity. Qed.

Lemma Q12_nz : ~ (12 : Q) == 0.
Proof. discriminate. Qed.

Lemma Q100_nz : ~ (100 : Q) == 0.
Proof. discriminate. Qed.

(** Rewrite a float expression over finite operands into [mkF] of a
    rational expression. *)
Ltac fin_rw :=
  repeat (unfold mkF in *;
          first [ rewrite fadd_fin | rewrite fmul_fin | rewrite fsub_fin
                | rewrite fpow_fin | rewrite fle_fin | rewrite feqb_fin
                | rewrite fdiv_fin by (apply Q12_nz || apply Q100_nz || assumption) ]).

(** ** Finite values: [fval x q] says the float [x] is finite and denotes [q] *)

Definition fval (x : F) (q : Q) : Prop := exists q', x = Fin q' /\ q' == q.

Lemma fval_fin q : fval (Fin q) q.
Proof. exists q. split; reflexivity. Qed.

Lemma fval_eq x a b : fval x a -> a == b -> fval x b.
Proof. intros (q & -> & Hq) Hab. exists q. split; [reflexivity|]. rewrite Hq. exact Hab. Qed.

Lemma fval_add x y a b : fval x a -> fval y b -> fval (fadd x y) (a + b).
Proof.
  intros (qa & -> & Ha) (qb & -> & Hb). rewrite fadd_fin. eexists. split; [reflexivity|].
  rewrite Qred_correct, Ha, Hb. reflexivity.
Qed.

Lemma fval_mul x y a b : fval x a -> fval y b -> fval (fmul x y) (a * b).
Proof.
  intros (qa & -> & Ha) (qb & -> & Hb). rewrite fmul_fin. eexists. split; [reflexivity|].
  rewrite Qred_correct, Ha, Hb. reflexivity.
Qed.

Lemma fval_sub x y a b : fval x a -> fval y b -> fval (fsub x y) (a - b).
Proof.
  intros (qa & -> & Ha) (qb & -> & Hb). rewrite fsub_fin. eexists. split; [reflexivity|].
  rewrite Qred_correct, Ha, Hb. reflexivity.
Qed.

Lemma fval_div x y a b : fval x a -> fval y b -> ~ b == 0 -> fval (fdiv x y) (a / b).
Proof.
  intros (qa & -> & Ha) (qb & -> & Hb) Hb0.
  rewrite fdiv_fin by (rewrite Hb; exact Hb0). eexists. split; [reflexivity|].
  rewrite Qred_correct, Ha, Hb. reflexivity.
Qed.

Lemma fval_pow x a n : fval x a -> fval (fpow x n) (a ^ Z.of_nat n).
Proof.
  intros (qa & -> & Ha). rewrite fpow_fin. eexists. split; [reflexivity|].
  rewrite Qred_correct, Ha. reflexivity.
Qed.

Create HintDb fval.
#[local] Hint Resolve fval_fin fval_add fval_mul fval_sub fval_pow fval_div Q12_nz Q100_nz : fval.

Lemma sim_config_fields f a r p g t y i m :
  price_krw (sim_config f a r p g t y i m) = p /\
  div_per_payout_krw (sim_config f a r p g t y i m) = fst (payout_schedule f a r) /\
  is_weekly_mode (sim_config f a r p g t y i m) = snd (payout_schedule f a r) /\
  interval (sim_config f a r p g t y i m) = freq_interval f /\
  real_change_rate (sim_config f a r p g t y i m) = g /\
  tax_rate (sim_config f a r p g t y i m) = t /\
  initial_invest_krw (sim_config f a r p g t y i m) = i /\
  monthly_contrib_krw (sim_config f a r p g t y i m) = m.
Proof. unfold sim_config. destruct (payout_schedule f a r). repeat split; reflexivity. Qed.

(** ** The growth estimate *)

Lemma resample_aux_contig cur v rest :
  months_contiguous cur rest ->
  resample_aux cur (Fin v) rest = map Fin (month_last_aux cur v rest).
Proof.
  revert cur v. induction rest as [|s rest IH]; intros cur v Hc; [reflexivity|].
  destruct Hc as [Hm Hc]. cbn [resample_aux month_last_aux].
  destruct (Z.eqb (s_month s) cur) eqn:E.
  - apply Z.eqb_eq in E. rewrite E in Hc. apply IH. exact Hc.
  - apply Z.eqb_neq in E.
    replace (Z.to_nat (s_month s - cur - 1)) with 0%nat by lia.
    cbn [repeat app map]. f_equal. apply IH. exact Hc.
Qed.

Lemma month_last_aux_nz cur v rest :
  ~ v == 0 -> Forall (fun s => ~ s_close s == 0) rest ->
  Forall (fun q => ~ q == 0) (month_last_aux cur v rest).
Proof.
  revert cur v. induction rest as [|s rest IH]; intros cur v Hv Hr.
  - constructor; [exact Hv | constructor].
  - inversion Hr as [|? ? Hs Hr']; subst. cbn [month_last_aux].
    destruct (Z.eqb (s_month s) cur).
    + apply IH; assumption.
    + constructor; [exact Hv|]. apply IH; assumption.
Qed.

Lemma ffill_fin prev l : ffill prev (map Fin l) = map Fin l.
Proof.
  revert prev. induction l as [|a l IH]; intros prev; [reflexivity|].
  cbn [map ffill is_nan]. f_equal. apply IH.
Qed.

Lemma pct_aux_length x l : length (pct_aux x l) = length l.
Proof.
  revert x. induction l as [|a l IH]; intros x; [reflexivity|].
  cbn [pct_aux length]. f_equal. apply IH.
Qed.

Lemma pct_changes_length a l : length (pct_changes (a :: l)) = length l.
Proof.
  revert a. induction l as [|b l IH]; intros a; [reflexivity|].
  change (pct_changes (a :: b :: l)) with ((b / a - 1) * 100 :: pct_changes (b :: l)).
  cbn [length]. f_equal. apply IH.
Qed.

(** Between non-zero finite months every change is finite: nothing for
    [dropna] to remove, and the sum is the spec's sum of percentages
    divided by 100. *)
Lemma pct_aux_fin a l :
  Forall (fun q => ~ q == 0) (a :: l) ->
  dropna (pct_aux (Fin a) (map Fin l)) = pct_aux (Fin a) (map Fin l) /\
  fval (fsum (pct_aux (Fin a) (map Fin l))) (Qsum (pct_changes (a :: l)) / 100).
Proof.
  revert a. induction l as [|b l IH]; intros a Hnz.
  - split; [reflexivity|]. exists 0. split; reflexivity.
  - inversion Hnz as [|? ? Ha Hbl]; subst.
    destruct (IH b Hbl) as [Hd Hs].
    cbn [map pct_aux].
    rewrite (fdiv_fin _ _ Ha). unfold mkF at 1. rewrite !fsub_fin.
    split.
    + unfold dropna in *. cbn [filter]. unfold mkF at 1. cbn [is_nan negb]. f_equal. exact Hd.
    + change (pct_changes (a :: b :: l)) with ((b / a - 1) * 100 :: pct_changes (b :: l)).
      unfold fsum in *. cbn [fold_right Qsum]. unfold Qsum in Hs |- *. cbn [fold_right].
      eapply fval_eq; [apply fval_add; [apply fval_fin | exact Hs]|].
      rewrite !Qred_correct. field. exact Ha.
Qed.

Lemma market_history_nonempty hp hm n s0 rest :
  match hp with [] => hm | _ => hp end = s0 :: rest ->
  mh_growth (market_history hp hm n) =
  fmul (fmean (dropna (pct_change (resample_last (s0 :: rest))))) (Fin 100).
Proof.
  intros Hh. unfold market_history.
  destruct hp as [|s hp']; [rewrite Hh; reflexivity|].
  rewrite Hh. reflexivity.
Qed.

(** C8: the growth estimate of [get_market_analysis].  When both provider
    calls return nothing, the growth rate is 0, the data is flagged as
    insufficient and the actual span is 0 years.  Otherwise, on the history
    actually used (the requested period, or the maximum one when the former
    is empty), if no calendar month is skipped, every close is non-zero and
    at least two months are present, the growth rate is exactly the
    arithmetic mean of the month-over-month percentage changes between the
    last closes of consecutive months. *)
Theorem market_history_growth (hist_period hist_max : list Sample) (period_years : nat) :
  (hist_period = [] -> hist_max = [] ->
   mh_growth (market_history hist_period hist_max period_years) = Fin 0 /\
   mh_short (market_history hist_period hist_max period_years) = true /\
   mh_years (market_history hist_period hist_max period_years) = Fin 0) /\
  (forall h, h = match hist_period with [] => hist_max | _ => hist_period end ->
   well_formed_history h -> (2 <= length (month_last h))%nat ->
   mh_growth (market_history hist_period hist_max period_years) = mkF (spec_growth h)).
Proof.
  split.
  - intros -> ->. repeat split.
  - intros h Hh [Hc Hnz] Hlen.
    destruct h as [|s0 rest]; [cbn in Hlen; lia|].
    rewrite (market_history_nonempty _ _ _ _ _ (eq_sym Hh)).
    unfold resample_last. rewrite (resample_aux_contig _ _ _ Hc).
    unfold spec_growth. unfold month_last in Hlen |- *.
    inversion Hnz as [|? ? H0 Hr]; subst.
    pose proof (month_last_aux_nz (s_month s0) (s_close s0) rest H0 Hr) as Hml.
    destruct (month_last_aux (s_month s0) (s_close s0) rest) as [|a l];
      [cbn in Hlen; lia|].
    cbn [length] in Hlen.
    destruct (pct_aux_fin a l Hml) as [Hd Hs].
    unfold pct_change. rewrite ffill_fin. cbn [map].
    unfold dropna. cbn [filter is_nan negb]. fold (dropna (pct_aux (Fin a) (map Fin l))).
    rewrite Hd. unfold fmean, fnat.
    assert (Hl : ~ inject_Z (Z.of_nat (length l)) == 0).
    { unfold Qeq. cbn [Qnum Qden inject_Z]. lia. }
    rewrite pct_aux_length, length_map.
    destruct (fval_div _ _ _ _ Hs (fval_fin _) Hl) as (m & Em & Hm).
    rewrite Em, fmul_fin. apply mkF_eq.
    rewrite pct_changes_length, Hm. field. exact Hl.
Qed.

Lemma market_history_growth_witness :
  mh_growth (market_history
               [ {| s_day := 0; s_month := 24300; s_close := 100 |};
                 {| s_day := 20; s_month := 24300; s_close := 104 |};
                 {| s_day := 35; s_month := 24301; s_close := 110 |};
                 {| s_day := 64; s_month := 24302; s_close := 99 |} ] [] 1) =
  mkF (spec_growth
         [ {| s_day := 0; s_month := 24300; s_close := 100 |};
           {| s_day := 20; s_month := 24300; s_close := 104 |};
           {| s_day := 35; s_month := 24301; s_close := 110 |};
           {| s_day := 64; s_month := 24302; s_close := 99 |} ]).
Proof.
  apply (proj2 (market_history_growth _ _ 1)); [reflexivity | | vm_compute; lia].
  split; [cbn; repeat split; lia|].
  repeat constructor; discriminate.
Defined.

Lemma sim_step_invested c i st st' :
  sim_step c i st = inr st' ->
  total_invested st' = fadd (total_invested st) (monthly_contrib_krw c) /\
  data_invested st' = data_invested st ++ [total_invested st'].
Proof.
  unfold sim_step. intros H. apply bind_inr in H as [a [_ H]].
  injection H as <-. split; reflexivity.
Qed.

(** The invested totals of any run that returns: a Python integer sum,
    whatever the price path. *)
Lemma sim_run_invested c I C k st :
  initial_invest_krw c = Fin I -> monthly_contrib_krw c = Fin C ->
  sim_run c k = inr st ->
  fval (total_invested st) (I + inject_Z (Z.of_nat k) * C) /\
  length (data_invested st) = S k /\
  (forall j, (j <= k)%nat -> fval (nth j (data_invested st) NaN) (I + inject_Z (Z.of_nat j) * C)).
Proof.
  intros HI HC. revert st. induction k as [|k IH]; intros st H.
  - cbn [sim_run] in H. unfold sim_init in H. apply bind_inr in H as [a [_ H]].
    injection H as <-. cbn [total_invested data_invested length]. rewrite HI.
    split; [|split; [reflexivity|]].
    + apply (fval_eq _ I); [apply fval_fin | ring].
    + intros j Hj. assert (j = 0%nat) by lia. subst j. cbn [nth].
      apply (fval_eq _ I); [apply fval_fin | ring].
  - apply sim_run_S_inv in H as [st0 [H0 Hs]].
    destruct (IH st0 H0) as (HT & Hlen & Hnth).
    apply sim_step_invested in Hs as [HT' Hdi].
    assert (HT'v : fval (total_invested st) (I + inject_Z (Z.of_nat (S k)) * C)).
    { rewrite HT', HC. eapply fval_eq; [apply fval_add; [exact HT | apply fval_fin]|].
      rewrite Nat2Z.inj_succ, <- Z.add_1_r, inject_Z_plus. change (inject_Z 1) with 1. ring. }
    split; [exact HT'v|]. split.
    + rewrite Hdi, length_app, Hlen. cbn [length]. lia.
    + intros j Hj. rewrite Hdi.
      destruct (Nat.eq_dec j (S k)) as [->|Hne].
      * rewrite app_nth2 by lia. rewrite Hlen, Nat.sub_diag. exact HT'v.
      * rewrite app_nth1 by lia. apply Hnth. lia.
Qed.

Lemma project_sim_run f a r p g t y i m :
  project f a r p g t y i m =
  bind (sim_run (sim_config f a r p g t y i m) (y * 12))
       (fun st => inr {| asset_series := data_asset st;
                         invested_series := data_invested st;
                         break_even := break_even_month st |}).
Proof. unfold project, simulate. rewrite sim_config_months. reflexivity. Qed.

(** Sums of finite amounts. *)
Lemma fsum_div_amounts l : fval (fsum (div_amounts l)) (Qsum (map d_amount l)).
Proof.
  induction l as [|d l IH]; [apply fval_fin|].
  cbn [div_amounts map fsum fold_right Qsum] in *. unfold Qsum.
  cbn [fold_right]. apply fval_add; [apply fval_fin | exact IH].
Qed.

Lemma Qplus_nonneg a b : 0 <= a -> 0 <= b -> 0 <= a + b.
Proof. intros Ha Hb. rewrite <- (Qplus_0_l 0). apply Qplus_le_compat; assumption. Qed.

Lemma Qsum_nonneg l :
  Forall (fun d => 0 <= d_amount d) l -> 0 <= Qsum (map d_amount l).
Proof.
  induction l as [|d l IH]; intros H; [apply Qle_refl|].
  inversion H as [|? ? Hd Hl]; subst.
  unfold Qsum. cbn [map fold_right]. fold (Qsum (map d_amount l)).
  apply Qplus_nonneg; [exact Hd | apply IH; exact Hl].
Qed.

Lemma Qsum_pos l :
  Forall (fun d => 0 <= d_amount d) l -> Exists (fun d => 0 < d_amount d) l ->
  0 < Qsum (map d_amount l).
Proof.
  induction l as [|d l IH]; intros Hnn Hex; [inversion Hex|].
  inversion Hnn as [|? ? Hd Hl]; subst.
  unfold Qsum. cbn [map fold_right]. fold (Qsum (map d_amount l)).
  assert (Hs : 0 <= Qsum (map d_amount l)).
  { apply Qsum_nonneg. exact Hl. }
  inversion Hex as [? ? Hpos|? ? Hex']; subst.
  - apply Qlt_le_trans with (d_amount d + 0); [rewrite Qplus_0_r; exact Hpos|].
    apply Qplus_le_compat; [apply Qle_refl | exact Hs].
  - apply Qlt_le_trans with (0 + Qsum (map d_amount l)).
    + rewrite Qplus_0_l. apply IH; assumption.
    + apply Qplus_le_compat; [exact Hd | apply Qle_refl].
Qed.

(** ** Further properties of [project] *)

(** Entry [j] of the invested series is [initial + j * contribution] for
    every [j] in [0..horizon], in any projection that returns, whatever the
    price path and the dividends. *)
Theorem project_invested_series f a r p g t y I C res :
  project f a r p g t y (Fin I) (Fin C) = inr res ->
  forall j, (j <= y * 12)%nat ->
  fval (nth j (invested_series res) NaN) (I + inject_Z (Z.of_nat j) * C).
Proof.
  intros H. apply project_inv in H as (st & Hst & _ & Hi & _).
  destruct (sim_config_fields f a r p g t y (Fin I) (Fin C)) as (_ & _ & _ & _ & _ & _ & Fi & Fm).
  destruct (sim_run_invested _ I C _ st Fi Fm Hst) as (_ & _ & Hnth).
  rewrite Hi. exact Hnth.
Qed.

Lemma project_invested_series_witness :
  exists res,
    project Monthly (Fin 2) (Fin 1300) (Fin 13000) (Fin 1) (Fin 15) 1 (Fin 1000) (Fin 50) = inr res /\
    fval (nth 12 (invested_series res) NaN) (1000 + inject_Z (Z.of_nat 12) * 50).
Proof.
  destruct (project Monthly (Fin 2) (Fin 1300) (Fin 13000) (Fin 1) (Fin 15) 1 (Fin 1000) (Fin 50))
    as [e|res] eqn:Hp; [vm_compute in Hp; discriminate|].
  exists res. split; [reflexivity|].
  apply (project_invested_series Monthly (Fin 2) (Fin 1300) (Fin 13000) (Fin 1) (Fin 15) 1
           1000 50 res Hp 12). lia.
Defined.

(** ** Further properties of the TAB 1 result section *)

(** Whenever the result section is produced, its free-ride success message
    (line 290, [if break_even_month:]) is shown exactly when the projection
    recorded a break-even month: a recorded month is never 0. *)
Theorem tab1_summary_free_ride f a r p g t y i m s :
  tab1_summary (sim_config f a r p g t y i m) = inr s ->
  exists res,
    project f a r p g t y i m = inr res /\
    free_ride_shown s = match break_even res with Some _ => true | None => false end.
Proof.
  unfold tab1_summary. rewrite sim_config_months.
  destruct (sim_run (sim_config f a r p g t y i m) (y * 12)) as [e|st] eqn:Hrun;
    [discriminate|].
  cbv zeta. destruct (feqb _ (Fin 0)); [discriminate|].
  intros H. injection H as <-.
  eexists. split; [rewrite project_sim_run, Hrun; reflexivity|].
  cbn [free_ride_shown break_even].
  pose proof (sim_run_break_even _ _ _ Hrun) as Hb.
  destruct (break_even_month st) as [k|] eqn:E; [|reflexivity].
  destruct (proj1 (proj1 (first_true_spec _ _) k) (eq_sym Hb)) as (Hk & _).
  cbn [py_truthy]. destruct k as [|k]; [lia|reflexivity].
Qed.

Lemma tab1_summary_free_ride_witness :
  exists s res,
    tab1_summary (sim_config Monthly (Fin 1200) (Fin 1) (Fin 100) (Fin 0) (Fin 15) 1 (Fin 1000) (Fin 50)) = inr s /\
    project Monthly (Fin 1200) (Fin 1) (Fin 100) (Fin 0) (Fin 15) 1 (Fin 1000) (Fin 50) = inr res /\
    free_ride_shown s = match break_even res with Some _ => true | None => false end.
Proof.
  destruct (tab1_summary (sim_config Monthly (Fin 1200) (Fin 1) (Fin 100) (Fin 0) (Fin 15) 1 (Fin 1000) (Fin 50)))
    as [e|s] eqn:Hs; [vm_compute in Hs; discriminate|].
  destruct (tab1_summary_free_ride Monthly (Fin 1200) (Fin 1) (Fin 100) (Fin 0) (Fin 15) 1 (Fin 1000) (Fin 50) s Hs)
    as (res & Hp & Hf).
  exists s, res. split; [reflexivity|]. split; assumption.
Defined.

Lemma resample_aux_same m v rest :
  Forall (fun s => s_month s = m) rest -> exists x, resample_aux m (Fin v) rest = [Fin x].
Proof.
  revert v. induction rest as [|s rest IH]; intros v H; [exists v; reflexivity|].
  inversion H as [|? ? Hs Hr]; subst.
  cbn [resample_aux]. rewrite Z.eqb_refl. apply IH. exact Hr.
Qed.

Lemma last_In {A} (l : list A) d : l <> [] -> In (last l d) l.
Proof.
  intros H. rewrite (app_removelast_last d H) at 2. apply in_or_app. right. left. reflexivity.
Qed.

Lemma Qsum_zero l :
  Forall (fun d => d_amount d == 0) l -> Qsum (map d_amount l) == 0.
Proof.
  induction l as [|d l IH]; intros H; [reflexivity|].
  inversion H as [|? ? Hd Hl]; subst.
  unfold Qsum. cbn [map fold_right]. fold (Qsum (map d_amount l)).
  rewrite Hd, (IH Hl). reflexivity.
Qed.

(** A history whose samples all fall in one calendar month yields a NaN
    growth estimate: [pct_change()] has only its leading NaN, which
    [dropna()] removes, and the mean of no values is NaN. *)
Theorem market_history_single_month_nan hist_period hist_max period_years s0 rest :
  match hist_period with [] => hist_max | _ => hist_period end = s0 :: rest ->
  Forall (fun s => s_month s = s_month s0) rest ->
  mh_growth (market_history hist_period hist_max period_years) = NaN.
Proof.
  intros Hh Hm.
  rewrite (market_history_nonempty _ _ _ _ _ Hh).
  unfold resample_last.
  destruct (resample_aux_same (s_month s0) (s_close s0) rest Hm) as (x & ->).
  reflexivity.
Qed.

Lemma market_history_single_month_nan_witness :
  mh_growth (market_history []
               [ {| s_day := 0; s_month := 24300; s_close := 100 |};
                 {| s_day := 5; s_month := 24300; s_close := 104 |} ] 3) = NaN.
Proof.
  apply (market_history_single_month_nan []
           [ {| s_day := 0; s_month := 24300; s_close := 100 |};
             {| s_day := 5; s_month := 24300; s_close := 104 |} ] 3
           {| s_day := 0; s_month := 24300; s_close := 100 |}
           [ {| s_day := 5; s_month := 24300; s_close := 104 |} ]).
  - reflexivity.
  - repeat constructor.
Defined.

(** The annual dividend: 0 without any event.  With non-negative amounts
    and a positive latest amount, it is the sum of the amounts dated at or
    after [last date - 365 days] (the latest event is always in that
    window, so the fallback does not fire).  When every amount in that
    window is 0, it is 12 times the mean of all the amounts. *)
Theorem annual_div_sum_spec dividends :
  (dividends = [] -> annual_div_sum dividends = Fin 0) /\
  (forall d0 rest, dividends = d0 :: rest ->
   let w := filter (fun d => Z.leb (d_time (last dividends d0) - one_year) (d_time d)) dividends in
   (Forall (fun d => 0 <= d_amount d) dividends -> 0 < d_amount (last dividends d0) ->
    fval (annual_div_sum dividends) (Qsum (map d_amount w))) /\
   (Forall (fun d => d_amount d == 0) w ->
    fval (annual_div_sum dividends)
         (Qsum (map d_amount dividends) / inject_Z (Z.of_nat (length dividends)) * 12))).
Proof.
  split; [intros ->; reflexivity|].
  intros d0 rest Hd w.
  assert (Hdef : annual_div_sum dividends =
            if feqb (fsum (div_amounts w)) (Fin 0) && Nat.ltb 0 (length dividends)
            then fmul (fmean (div_amounts dividends)) (Fin 12)
            else fsum (div_amounts w)).
  { subst dividends. reflexivity. }
  destruct (fsum_div_amounts w) as (sw & Ew & Hsw).
  rewrite Hdef, Ew, feqb_fin.
  split.
  - intros Hnn Hlast.
    assert (Hin : In (last dividends d0) w).
    { unfold w. apply filter_In. split; [apply last_In; congruence|].
      apply Z.leb_le. unfold one_year. lia. }
    assert (Hpos : 0 < Qsum (map d_amount w)).
    { apply Qsum_pos.
      - apply Forall_forall. intros d Hdw. unfold w in Hdw. apply filter_In in Hdw as [Hdw _].
        rewrite Forall_forall in Hnn. apply Hnn. exact Hdw.
      - apply Exists_exists. exists (last dividends d0). split; assumption. }
    destruct (Qeq_bool sw 0) eqn:E.
    + apply Qeq_bool_iff in E. rewrite Hsw in E. rewrite E in Hpos.
      exfalso. apply (Qlt_irrefl 0). exact Hpos.
    + cbn [andb]. exists sw. split; [reflexivity | exact Hsw].
  - intros Hz.
    assert (E : Qeq_bool sw 0 = true).
    { apply Qeq_bool_iff. rewrite Hsw. apply Qsum_zero. exact Hz. }
    rewrite E. subst dividends. cbn [length Nat.ltb Nat.leb andb].
    assert (Hlen : ~ inject_Z (Z.of_nat (length (div_amounts (d0 :: rest)))) == 0).
    { unfold div_amounts. rewrite length_map. cbn [length].
      unfold Qeq. cbn [Qnum Qden inject_Z]. lia. }
    unfold fmean, fnat.
    eapply fval_eq.
    + apply fval_mul; [|apply fval_fin].
      apply fval_div; [apply fsum_div_amounts | apply fval_fin | exact Hlen].
    + unfold div_amounts. rewrite length_map. reflexivity.
Qed.

Lemma annual_div_sum_spec_witness :
  fval (annual_div_sum [ {| d_time := 0; d_amount := 1 # 2 |};
                         {| d_time := 31536000; d_amount := 1 # 4 |};
                         {| d_time := 40000000; d_amount := 1 # 4 |} ])
       (1 # 2).
Proof.
  destruct (proj2 (annual_div_sum_spec [ {| d_time := 0; d_amount := 1 # 2 |};
                                         {| d_time := 31536000; d_amount := 1 # 4 |};
                                         {| d_time := 40000000; d_amount := 1 # 4 |} ])
             {| d_time := 0; d_amount := 1 # 2 |}
             [ {| d_time := 31536000; d_amount := 1 # 4 |};
               {| d_time := 40000000; d_amount := 1 # 4 |} ] eq_refl) as [Hpos _].
  eapply fval_eq.
  - apply Hpos; [repeat constructor; discriminate | reflexivity].
  - reflexivity.
Defined.

(** ** The goal solver and the round trip in binary64 *)

Lemma py_pow64_error x n e : py_pow64 x n = inl e -> e = OverflowError.
Proof.
  unfold py_pow64. destruct x; destruct (f64pow _ n); congruence.
Qed.





(** C5 (counterexample): over 10 years, a growth of -99.9% a month makes
    [(1 + g/100) ** 120] underflow to [0.0], and the solver reports that the
    dividend vanishes although the projected annual dividend
    [dividend * (1 + g/100) ** 120] is positive; a growth of 40000% makes
    the Python power raise [OverflowError], reported by the handler of line
    358, with a positive projected dividend as well. *)
Lemma solve_goal_error_counterexample :
  let g (chg : float64) :=
    {| g64_price_krw := f64_of_Z 100; g64_annual_div_usd := f64_of_Z 21; g64_rate := f64_of_Z 1;
       g64_real_change_rate := chg; g64_tax_rate := f64_of_Z 15; g64_years := 10;
       g64_target_monthly_div_input := 100 |} in
  let projected (chg : float64) :=
    (f64_to_Q (f64_of_Z 21) * f64_to_Q (f64_of_Z 1) * (1 + f64_to_Q chg / 100) ^ 120)%Q in
  solve_goal64 (g (f64_of_Q (-999 # 10))) = inl DividendVanishes64 /\
  (0 < projected (f64_of_Q (-999 # 10)))%Q /\
  solve_goal64 (g (f64_of_Z 40000)) = inl (GoalPyError OverflowError) /\
  (0 < projected (f64_of_Z 40000))%Q.
Proof.
  cbv zeta.
  refine (conj _ (conj _ (conj _ _))); vm_compute; reflexivity.
Qed.

(** C5 (amended): the solver fails, with the message of line 319 or an
    exception reported by the handler of line 358, exactly when the Python
    power [(1 + growth/100) ** horizon] overflows, or when the projected
    annual dividend, computed in binary64 as
    [(dividend * rate) * decay_factor], is at most 0; it then returns no
    plan at all. *)
Theorem solve_goal64_error_iff g :
  (exists e, solve_goal64 g = inl e) <->
  (py_pow64 (f64add (f64_of_Z 1) (f64div (g64_real_change_rate g) (f64_of_Z 100))) (g64_years g * 12)
     = inl OverflowError \/
   exists d, py_pow64 (f64add (f64_of_Z 1) (f64div (g64_real_change_rate g) (f64_of_Z 100))) (g64_years g * 12)
               = inr d /\
             f64le (f64mul (f64mul (g64_annual_div_usd g) (g64_rate g)) d) (f64_of_Z 0) = true).
Proof.
  unfold solve_goal64.
  destruct (py_pow64 _ _) as [e|d] eqn:Hp.
  - apply py_pow64_error in Hp. subst e.
    split; [intros _; left; reflexivity | intros _; eexists; reflexivity].
  - destruct (f64le _ _) eqn:Hle.
    + split; [intros _; right; exists d; split; [reflexivity | exact Hle] | intros _; eexists; reflexivity].
    + split.
      * intros [e He]. discriminate.
      * intros [Hc | (d' & Hd & Hl)]; [discriminate|].
        injection Hd as <-. congruence.
Qed.

(** ** Properties of [project64] and of the TAB 1 result section *)

Lemma round_aux_nonneg m e l : f64_nonneg (SpecFloat.binary_round_aux 53 1024 false m e l) = true.
Proof.
  unfold SpecFloat.binary_round_aux.
  destruct (SpecFloat.shr_fexp 53 1024 m e l) as [mrs e'].
  destruct (SpecFloat.shr_fexp 53 1024 _ e' _) as [mrs' e''].
  destruct (SpecFloat.shr_m mrs') as [|q|q]; [reflexivity| |reflexivity].
  destruct (Z.leb _ _); reflexivity.
Qed.

Lemma round_nonneg m e : f64_nonneg (SpecFloat.binary_round 53 1024 false m e) = true.
Proof.
  unfold SpecFloat.binary_round. destruct (SpecFloat.shl_align _ _ _) as [mz ez].
  apply round_aux_nonneg.
Qed.

Lemma f64_of_Z_nonneg z : (0 <= z)%Z -> f64_nonneg (f64_of_Z z) = true.
Proof.
  intros Hz. unfold f64_of_Z, SpecFloat.binary_normalize.
  destruct z as [|q|q]; [reflexivity | apply round_nonneg | lia].
Qed.

Lemma f64_nonneg_mul x y :
  f64_nonneg x = true -> f64_nonneg y = true -> f64_nonneg (f64mul x y) = true.
Proof.
  unfold f64mul, SpecFloat.SFmul.
  destruct x as [[]|[]| |[]]; destruct y as [[]|[]| |[]]; cbn; try discriminate; try reflexivity.
  intros _ _. apply round_aux_nonneg.
Qed.

Lemma f64_nonneg_div x y :
  f64_nonneg x = true -> f64_nonneg y = true -> f64_nonneg (f64div x y) = true.
Proof.
  unfold f64div, SpecFloat.SFdiv.
  destruct x as [[]|[]| |[]]; destruct y as [[]|[]| |[]]; cbn; try discriminate; try reflexivity.
  intros _ _. destruct (SpecFloat.SFdiv_core_binary _ _ _ _ _ _) as [[mz ez] lz].
  apply round_aux_nonneg.
Qed.

Lemma f64_nonneg_add x y :
  f64_nonneg x = true -> f64_nonneg y = true -> f64_nonneg (f64add x y) = true.
Proof.
  unfold f64add, SpecFloat.SFadd.
  destruct x as [[]|[]| |[] mx ex]; destruct y as [[]|[]| |[] my ey];
    cbn [f64_nonneg negb]; try discriminate; try reflexivity.
  intros _ _. cbn [SpecFloat.cond_Zopp].
  destruct (SpecFloat.shl_align mx ex _) as [ax ex'].
  destruct (SpecFloat.shl_align my ey _) as [ay ey'].
  cbn [fst Z.add SpecFloat.binary_normalize]. apply round_nonneg.
Qed.

Lemma py_int64_nonneg x a : f64_nonneg x = true -> py_int64 x = inr a -> (0 <= a)%Z.
Proof.
  destruct x as [s|s| |[] m e]; cbn; try discriminate.
  - intros _ H. injection H as <-. lia.
  - intros _ H. injection H as <-.
    destruct (Z.leb 0 e); [apply Z.shiftl_nonneg | apply Z.shiftr_nonneg]; lia.
Qed.

Lemma freq_count_pos f : (0 <= freq_count f)%Z.
Proof. destruct f; cbn; lia. Qed.

Lemma sim_config64_fields f a r p g t y i m :
  let c := sim_config64 f a r p g t y i m in
  c64_div_per_payout_krw c = fst (payout_schedule64 f a r) /\
  c64_is_weekly_mode c = snd (payout_schedule64 f a r) /\
  c64_price_krw c = p /\ c64_real_change_rate c = g /\ c64_tax_rate c = t /\
  c64_months c = (y * 12)%nat /\ c64_initial_invest_krw c = i /\ c64_monthly_contrib_krw c = m.
Proof.
  unfold sim_config64. destruct (payout_schedule64 f a r).
  cbn. repeat split; reflexivity.
Qed.

Lemma payout_schedule64_nonneg f a r :
  f64_nonneg a = true -> f64_nonneg r = true -> f64_nonneg (fst (payout_schedule64 f a r)) = true.
Proof.
  intros Ha Hr. unfold payout_schedule64.
  destruct (Z.eqb _ 52); cbn [fst];
    (apply f64_nonneg_div; [apply f64_nonneg_mul; assumption | apply f64_of_Z_nonneg]);
    [lia | apply freq_count_pos].
Qed.

Lemma sim_run64_S_inv c k st' :
  sim_run64 c (S k) = inr st' ->
  exists st, sim_run64 c k = inr st /\ sim_step64 c (S k) st = inr st'.
Proof. cbn [sim_run64]. apply bind_inr. Qed.

Section SignInvariant.
Variable c : SimConfig64.
Hypothesis Hprice : f64_nonneg (c64_price_krw c) = true.
Hypothesis Hdpp : f64_nonneg (c64_div_per_payout_krw c) = true.
Hypothesis Htax : f64_nonneg (f64sub (f64_of_Z 1) (f64div (c64_tax_rate c) (f64_of_Z 100))) = true.
Hypothesis Hgrowth : f64_nonneg (f64add (f64_of_Z 1) (f64div (c64_real_change_rate c) (f64_of_Z 100))) = true.
Hypothesis Hinit : f64_nonneg (pn_to_f64 (c64_initial_invest_krw c)) = true.
Hypothesis Hcontrib : f64_nonneg (pn_to_f64 (c64_monthly_contrib_krw c)) = true.

Lemma net_div64_nonneg i st :
  f64_nonneg (s64_current_shares st) = true -> f64_nonneg (net_div64 c i st) = true.
Proof.
  intros Hs. unfold net_div64. apply f64_nonneg_mul; [|exact Htax].
  unfold gross_div64.
  destruct (c64_is_weekly_mode c); [apply f64_nonneg_mul; assumption|].
  destruct (Nat.eqb _ 0); [apply f64_nonneg_mul; assumption | apply f64_of_Z_nonneg; lia].
Qed.

Lemma sim_run64_nonneg k st :
  sim_run64 c k = inr st ->
  Forall (fun a => (0 <= a)%Z) (s64_data_asset st) /\
  f64_nonneg (s64_current_shares st) = true /\ f64_nonneg (s64_current_price st) = true.
Proof.
  revert st. induction k as [|k IH]; intros st H.
  - cbn [sim_run64] in H. unfold sim_init64 in H. apply bind_inr in H as (a & Ha & H).
    injection H as <-. cbn.
    assert (Hsh : f64_nonneg (f64div (pn_to_f64 (c64_initial_invest_krw c)) (c64_price_krw c)) = true)
      by (apply f64_nonneg_div; assumption).
    refine (conj _ (conj Hsh Hprice)).
    constructor; [|constructor].
    eapply py_int64_nonneg; [|exact Ha]. apply f64_nonneg_mul; assumption.
  - apply sim_run64_S_inv in H as (st0 & H0 & Hs).
    destruct (IH st0 H0) as (Hl & Hsh & Hp).
    unfold sim_step64 in Hs. apply bind_inr in Hs as (a & Ha & Hs).
    injection Hs as <-. cbn [s64_data_asset s64_current_shares s64_current_price].
    assert (Hp' : f64_nonneg (f64mul (s64_current_price st0)
              (f64add (f64_of_Z 1) (f64div (c64_real_change_rate c) (f64_of_Z 100)))) = true)
      by (apply f64_nonneg_mul; assumption).
    assert (Hsh' : f64_nonneg (f64add (s64_current_shares st0)
              (f64div (f64add (net_div64 c (S k) st0) (pn_to_f64 (c64_monthly_contrib_krw c)))
                      (f64mul (s64_current_price st0)
                              (f64add (f64_of_Z 1) (f64div (c64_real_change_rate c) (f64_of_Z 100)))))) = true).
    { apply f64_nonneg_add; [exact Hsh|]. apply f64_nonneg_div; [|exact Hp'].
      apply f64_nonneg_add; [apply net_div64_nonneg; exact Hsh | exact Hcontrib]. }
    refine (conj _ (conj Hsh' Hp')).
    apply Forall_app. split; [exact Hl|]. constructor; [|constructor].
    eapply py_int64_nonneg; [|exact Ha]. apply f64_nonneg_mul; assumption.
Qed.

End SignInvariant.

(** X3: in a projection that completes, every recorded asset value is
    non-negative, provided the price, the annual dividend and the exchange
    rate have a clear sign bit, the two factors [1 - tax/100] and
    [1 + growth/100] as computed in binary64 are non-negative, and the two
    won amounts are non-negative ints. *)
Theorem project64_assets_nonneg f a r p g t y I C res :
  f64_nonneg p = true -> f64_nonneg a = true -> f64_nonneg r = true ->
  f64_nonneg (f64sub (f64_of_Z 1) (f64div t (f64_of_Z 100))) = true ->
  f64_nonneg (f64add (f64_of_Z 1) (f64div g (f64_of_Z 100))) = true ->
  (0 <= I)%Z -> (0 <= C)%Z ->
  project64 f a r p g t y (PyInt I) (PyInt C) = inr res ->
  Forall (fun v => (0 <= v)%Z) (asset_series64 res).
Proof.
  intros Hp Ha Hr Ht Hg HI HC H.
  unfold project64 in H. apply bind_inr in H as (st & Hst & H). injection H as <-.
  cbn [asset_series64].
  destruct (sim_config64_fields f a r p g t y (PyInt I) (PyInt C))
    as (Ed & _ & Ep & Eg & Et & _ & Ei & Em).
  refine (proj1 (sim_run64_nonneg _ _ _ _ _ _ _ _ _ Hst)).
  - rewrite Ep. exact Hp.
  - rewrite Ed. apply payout_schedule64_nonneg; assumption.
  - rewrite Et. exact Ht.
  - rewrite Eg. exact Hg.
  - rewrite Ei. apply f64_of_Z_nonneg. exact HI.
  - rewrite Em. apply f64_of_Z_nonneg. exact HC.
Qed.

Lemma project64_assets_nonneg_witness :
  exists res,
    project64 Monthly (f64_of_Z 2) (f64_of_Z 1300) (f64_of_Z 13000) (f64_of_Z 1) (f64_of_Z 15) 1
              (PyInt 10000000) (PyInt 500000) = inr res /\
    Forall (fun v => (0 <= v)%Z) (asset_series64 res).
Proof.
  destruct (project64 Monthly (f64_of_Z 2) (f64_of_Z 1300) (f64_of_Z 13000) (f64_of_Z 1) (f64_of_Z 15) 1
              (PyInt 10000000) (PyInt 500000)) as [e|res] eqn:Hp; [vm_compute in Hp; discriminate|].
  exists res. split; [reflexivity|].
  apply (project64_assets_nonneg Monthly (f64_of_Z 2) (f64_of_Z 1300) (f64_of_Z 13000) (f64_of_Z 1)
           (f64_of_Z 15) 1 10000000 500000 res); try (vm_compute; reflexivity); try lia.
  exact Hp.
Defined.

Lemma zero_or_nan_mul x y : f64_zero_or_nan x = true -> f64_zero_or_nan (f64mul x y) = true.
Proof. destruct x; try discriminate; destruct y; reflexivity. Qed.

Lemma zero_or_nan_div x y : f64_zero_or_nan x = true -> f64_zero_or_nan (f64div x y) = true.
Proof. destruct x; try discriminate; destruct y; reflexivity. Qed.

Lemma zero_or_nan_add x y :
  f64_zero_or_nan x = true -> f64_zero_or_nan y = true -> f64_zero_or_nan (f64add x y) = true.
Proof.
  destruct x as [sx| | |]; try discriminate; destruct y as [sy| | |]; try discriminate;
    try reflexivity.
  intros _ _. unfold f64add, SpecFloat.SFadd. destruct sx, sy; reflexivity.
Qed.

Lemma f64add_nan_r x : f64add x SpecFloat.S754_nan = SpecFloat.S754_nan.
Proof. destruct x; reflexivity. Qed.

Lemma f64_zero_or_nan_cases x :
  f64_zero_or_nan x = true -> (exists s, x = SpecFloat.S754_zero s) \/ x = SpecFloat.S754_nan.
Proof. destruct x; try discriminate; eauto. Qed.

(** Month 1 from a zero initial capital: the dividend is a zero (or NaN, and
    then [int()] raises), and [0.0 >= 0] holds. *)
Lemma sim_run64_zero_initial_one c st :
  c64_initial_invest_krw c = PyInt 0 ->
  sim_run64 c 1 = inr st -> s64_break_even_month st = Some 1%nat.
Proof.
  intros Hi H. apply sim_run64_S_inv in H as (st0 & H0 & Hs).
  cbn [sim_run64] in H0. unfold sim_init64 in H0. rewrite Hi in H0.
  apply bind_inr in H0 as (a & _ & H0). injection H0 as <-.
  set (sh := f64div (pn_to_f64 (PyInt 0)) (c64_price_krw c)) in Hs.
  assert (Hsh : f64_zero_or_nan sh = true) by (apply zero_or_nan_div; reflexivity).
  unfold sim_step64 in Hs. cbn [s64_accumulated_div s64_break_even_month s64_total_invested] in Hs.
  match type of Hs with context [net_div64 c ?i ?st] =>
    assert (Hn : f64_zero_or_nan (net_div64 c i st) = true);
    [ unfold net_div64, gross_div64; apply zero_or_nan_mul; cbn [s64_current_shares];
      destruct (c64_is_weekly_mode c); [apply zero_or_nan_mul; exact Hsh|];
      destruct (Nat.eqb _ 0); [apply zero_or_nan_mul; exact Hsh | reflexivity]
    | apply f64_zero_or_nan_cases in Hn as [[sn En] | En]; rewrite En in Hs ]
  end.
  - apply bind_inr in Hs as (a' & _ & Hs). injection Hs as <-. cbn.
    destruct sn; reflexivity.
  - unfold f64add at 2 in Hs. cbn [SpecFloat.SFadd] in Hs.
    rewrite f64add_nan_r in Hs. cbn in Hs. discriminate.
Qed.

Lemma sim_step64_break_even_kept c i st st' m :
  sim_step64 c i st = inr st' -> s64_break_even_month st = Some m -> s64_break_even_month st' = Some m.
Proof.
  unfold sim_step64. intros H Hb. apply bind_inr in H as (a & _ & H). injection H as <-.
  cbn. rewrite Hb. reflexivity.
Qed.

(** X4: from a zero initial capital, a projection of at least one year that
    completes records month 1 as the break-even month, whatever the price,
    the dividend, the growth, the tax and the contribution. *)
Theorem project64_zero_initial_break_even f a r p g t y C res :
  (1 <= y)%nat ->
  project64 f a r p g t y (PyInt 0) C = inr res ->
  break_even64 res = Some 1%nat.
Proof.
  intros Hy H. unfold project64 in H. apply bind_inr in H as (st & Hst & H). injection H as <-.
  cbn [break_even64].
  destruct (sim_config64_fields f a r p g t y (PyInt 0) C) as (_ & _ & _ & _ & _ & Em & Ei & _).
  rewrite Em in Hst. destruct (y * 12)%nat as [|k] eqn:Ek; [lia|].
  clear Ek Hy Em. revert st Hst. induction k as [|k IH]; intros st Hst.
  - exact (sim_run64_zero_initial_one _ st Ei Hst).
  - apply sim_run64_S_inv in Hst as (st0 & H0 & Hs).
    exact (sim_step64_break_even_kept _ _ _ _ _ Hs (IH st0 H0)).
Qed.

Lemma project64_zero_initial_break_even_witness :
  exists res,
    project64 Quarterly (f64_of_Z 2) (f64_of_Z 1300) (f64_of_Z 13000) (f64_of_Z 1) (f64_of_Z 15) 1
              (PyInt 0) (PyInt 500000) = inr res /\
    break_even64 res = Some 1%nat.
Proof.
  destruct (project64 Quarterly (f64_of_Z 2) (f64_of_Z 1300) (f64_of_Z 13000) (f64_of_Z 1) (f64_of_Z 15) 1
              (PyInt 0) (PyInt 500000)) as [e|res] eqn:Hp; [vm_compute in Hp; discriminate|].
  exists res. split; [reflexivity|].
  apply (project64_zero_initial_break_even Quarterly (f64_of_Z 2) (f64_of_Z 1300) (f64_of_Z 13000)
           (f64_of_Z 1) (f64_of_Z 15) 1 (PyInt 500000) res); [lia | exact Hp].
Defined.

(** With int won amounts the invested principal stays a Python int: after
    [k] months it is [initial + k * contribution], the last entry of the
    invested series. *)
Lemma sim_run64_invested c I C k st :
  c64_initial_invest_krw c = PyInt I -> c64_monthly_contrib_krw c = PyInt C ->
  sim_run64 c k = inr st ->
  s64_total_invested st = PyInt (I + Z.of_nat k * C) /\
  last (s64_data_invested st) (PyInt 0) = s64_total_invested st.
Proof.
  intros Hi Hc. revert st. induction k as [|k IH]; intros st H.
  - cbn [sim_run64] in H. unfold sim_init64 in H. apply bind_inr in H as (a & _ & H).
    injection H as <-. cbn. rewrite Hi. split; [f_equal; lia | reflexivity].
  - apply sim_run64_S_inv in H as (st0 & H0 & Hs).
    destruct (IH st0 H0) as [Ht _].
    unfold sim_step64 in Hs. apply bind_inr in Hs as (a & _ & Hs). injection Hs as <-.
    cbn [s64_total_invested s64_data_invested]. rewrite Ht, Hc. cbn [pn_add].
    split; [f_equal; lia | apply last_last].
Qed.

(** X6: for the int won amounts of the two number inputs, the result
    section raises [ZeroDivisionError] in the ROI (line 265) exactly when
    the projection completes with a final invested principal
    [initial + years * 12 * contribution] of 0, and it produces a summary
    exactly when the projection completes with a non-zero principal. *)
Theorem tab1_summary64_zero_division f a r p g t y I C :
  (tab1_summary64 f a r p g t y I C = inl ZeroDivisionError <->
     (exists res, project64 f a r p g t y (PyInt I) (PyInt C) = inr res) /\
     (I + Z.of_nat (y * 12) * C = 0)%Z) /\
  ((exists s, tab1_summary64 f a r p g t y I C = inr s) <->
     (exists res, project64 f a r p g t y (PyInt I) (PyInt C) = inr res) /\
     (I + Z.of_nat (y * 12) * C <> 0)%Z).
Proof.
  destruct (sim_config64_fields f a r p g t y (PyInt I) (PyInt C)) as (_ & _ & _ & _ & _ & Em & Ei & Ec).
  unfold tab1_summary64, project64. rewrite Em.
  destruct (sim_run64 _ (y * 12)) as [e|st] eqn:Hrun; cbn [bind].
  - split; split.
    + discriminate.
    + intros [[res Hr] _]. discriminate.
    + intros [s Hs]. discriminate.
    + intros [[res Hr] _]. discriminate.
  - destruct (sim_run64_invested _ I C _ st Ei Ec Hrun) as [Ht Hl].
    rewrite Hl, Ht. cbn [pn_sub pn_truediv].
    destruct (I + Z.of_nat (y * 12) * C)%Z as [|n|n] eqn:Ez.
    + split; split.
      * intros _. split; [eexists; reflexivity | reflexivity].
      * intros _. reflexivity.
      * intros [s Hs]. discriminate.
      * intros [_ Hn]. congruence.
    + split; split.
      * discriminate.
      * intros [_ Hn]. discriminate.
      * intros _. split; [eexists; reflexivity | discriminate].
      * intros _. eexists. reflexivity.
    + split; split.
      * discriminate.
      * intros [_ Hn]. discriminate.
      * intros _. split; [eexists; reflexivity | discriminate].
      * intros _. eexists. reflexivity.
Qed.

Lemma digits2_pos_size p : SpecFloat.digits2_pos p = Pos.size p.
Proof. induction p as [p IH|p IH|]; cbn; [rewrite IH|rewrite IH|]; reflexivity. Qed.

Lemma size_iter_xO p n : Pos.size (Pos.iter xO p n) = (Pos.size p + n)%positive.
Proof.
  induction n as [|n IH] using Pos.peano_ind.
  - cbn. rewrite Pos.add_1_r. reflexivity.
  - rewrite Pos.iter_succ. cbn [Pos.size]. rewrite IH, Pos.add_succ_r. reflexivity.
Qed.

(** A mantissa of 53 bits at an exponent in range is exact. *)
Lemma round_aux_exact53 m e :
  Pos.size m = 53%positive -> (-1074 <= e <= 971)%Z ->
  SpecFloat.binary_round_aux 53 1024 false (Zpos m) e SpecFloat.loc_Exact = SpecFloat.S754_finite false m e.
Proof.
  intros Hs He. unfold SpecFloat.binary_round_aux, SpecFloat.shr_fexp.
  cbn [SpecFloat.Zdigits2]. rewrite digits2_pos_size, Hs.
  replace (SpecFloat.fexp 53 1024 (Zpos 53 + e) - e)%Z with 0%Z
    by (unfold SpecFloat.fexp, SpecFloat.emin; lia).
  cbn [SpecFloat.shr SpecFloat.shr_record_of_loc SpecFloat.shr_m SpecFloat.loc_of_shr_record
       SpecFloat.round_nearest_even SpecFloat.Zdigits2].
  rewrite digits2_pos_size, Hs.
  replace (SpecFloat.fexp 53 1024 (Zpos 53 + e) - e)%Z with 0%Z
    by (unfold SpecFloat.fexp, SpecFloat.emin; lia).
  cbn [SpecFloat.shr SpecFloat.shr_m].
  replace (Z.leb e (1024 - 53)) with true by (symmetry; apply Z.leb_le; lia).
  reflexivity.
Qed.

(** [float(z)] of an int in [1, 2^53) is a positive finite double. *)
Lemma f64_of_Z_pos z :
  (0 < z < 2 ^ 53)%Z -> exists m e, f64_of_Z z = SpecFloat.S754_finite false m e.
Proof.
  intros Hz. destruct z as [|p|p]; try lia.
  assert (Hd : (Zpos (Pos.size p) <= 53)%Z).
  { pose proof (Pos.size_le p) as Hle.
    assert (H2 : (2 ^ Zpos (Pos.size p) <= 2 * Zpos p)%Z).
    { rewrite <- Pos2Z.inj_pow. change (2 * Zpos p)%Z with (Zpos (p~0)). lia. }
    destruct (Z.le_gt_cases (Zpos (Pos.size p)) 53) as [|Hgt]; [assumption|].
    assert (H54 : (2 ^ 54 <= 2 ^ Zpos (Pos.size p))%Z) by (apply Z.pow_le_mono_r; lia).
    lia. }
  unfold f64_of_Z, SpecFloat.binary_normalize, SpecFloat.binary_round.
  rewrite digits2_pos_size.
  unfold SpecFloat.shl_align.
  replace (SpecFloat.fexp 53 1024 (Zpos (Pos.size p) + 0))
    with (Zpos (Pos.size p) - 53)%Z by (unfold SpecFloat.fexp, SpecFloat.emin; lia).
  rewrite Z.sub_0_r.
  destruct (Zpos (Pos.size p) - 53)%Z as [|k|k] eqn:Ek.
  - exists p, 0%Z. apply round_aux_exact53; [lia|lia].
  - lia.
  - exists (Pos.iter xO p k), (Zneg k). apply round_aux_exact53.
    + apply Pos2Z.inj. rewrite size_iter_xO, Pos2Z.inj_add. lia.
    + lia.
Qed.

Lemma zero_or_nan_mul_zero_r x s : f64_zero_or_nan (f64mul x (SpecFloat.S754_zero s)) = true.
Proof. destruct x; reflexivity. Qed.

(** With a tax rate of 100 every net dividend is a zero (or NaN), and a
    positive int principal is never reached. *)
Lemma sim_run64_full_tax c I C k st :
  c64_tax_rate c = f64_of_Z 100 ->
  c64_initial_invest_krw c = PyInt I -> c64_monthly_contrib_krw c = PyInt C ->
  (0 < I)%Z -> (0 <= C)%Z -> (I + Z.of_nat k * C < 2 ^ 53)%Z ->
  sim_run64 c k = inr st ->
  s64_break_even_month st = None /\ f64_zero_or_nan (s64_accumulated_div st) = true.
Proof.
  intros Ht Hi Hc HI HC. revert st. induction k as [|k IH]; intros st Hk H.
  - cbn [sim_run64] in H. unfold sim_init64 in H. apply bind_inr in H as (a & _ & H).
    injection H as <-. split; reflexivity.
  - apply sim_run64_S_inv in H as (st0 & H0 & Hs).
    destruct (IH st0 ltac:(nia) H0) as [Hb Hacc].
    destruct (sim_run64_invested _ I C _ st0 Hi Hc H0) as [Htot _].
    destruct (f64_of_Z_pos (I + Z.of_nat k * C)) as (m & e & Ef); [nia|].
    unfold sim_step64 in Hs. apply bind_inr in Hs as (a & _ & Hs). injection Hs as <-.
    cbn [s64_break_even_month s64_accumulated_div]. rewrite Hb, Htot.
    assert (Hn : f64_zero_or_nan (f64add (s64_accumulated_div st0) (net_div64 c (S k) st0)) = true).
    { apply zero_or_nan_add; [exact Hacc|]. unfold net_div64. rewrite Ht.
      replace (f64sub (f64_of_Z 1) (f64div (f64_of_Z 100) (f64_of_Z 100)))
        with (SpecFloat.S754_zero false) by (vm_compute; reflexivity).
      apply zero_or_nan_mul_zero_r. }
    split; [|exact Hn].
    unfold pn_ge, pn_to_f64. rewrite Ef.
    apply f64_zero_or_nan_cases in Hn as [[s Es] | Es]; rewrite Es; reflexivity.
Qed.

(** X5: with a tax rate of 100, a positive initial capital and a
    non-negative contribution (the final principal below 2^53, so that its
    conversion to a double is exact), a projection that completes never
    records a break-even month. *)
Theorem project64_full_tax_no_break_even f a r p g y I C res :
  (0 < I)%Z -> (0 <= C)%Z -> (I + Z.of_nat (y * 12) * C < 2 ^ 53)%Z ->
  project64 f a r p g (f64_of_Z 100) y (PyInt I) (PyInt C) = inr res ->
  break_even64 res = None.
Proof.
  intros HI HC Hb H. unfold project64 in H. apply bind_inr in H as (st & Hst & H). injection H as <-.
  cbn [break_even64].
  destruct (sim_config64_fields f a r p g (f64_of_Z 100) y (PyInt I) (PyInt C))
    as (_ & _ & _ & _ & Et & Em & Ei & Ec).
  rewrite Em in Hst.
  exact (proj1 (sim_run64_full_tax _ I C _ st Et Ei Ec HI HC Hb Hst)).
Qed.

Lemma project64_full_tax_no_break_even_witness :
  exists res,
    project64 Monthly (f64_of_Z 2) (f64_of_Z 1300) (f64_of_Z 13000) (f64_of_Z 1) (f64_of_Z 100) 1
              (PyInt 10000000) (PyInt 500000) = inr res /\
    break_even64 res = None.
Proof.
  destruct (project64 Monthly (f64_of_Z 2) (f64_of_Z 1300) (f64_of_Z 13000) (f64_of_Z 1) (f64_of_Z 100) 1
              (PyInt 10000000) (PyInt 500000)) as [e|res] eqn:Hp; [vm_compute in Hp; discriminate|].
  exists res. split; [reflexivity|].
  apply (project64_full_tax_no_break_even Monthly (f64_of_Z 2) (f64_of_Z 1300) (f64_of_Z 13000)
           (f64_of_Z 1) 1 10000000 500000 res); [lia | lia | vm_compute; reflexivity | exact Hp].
Defined.

(** X9: with a tax rate of 100 and a positive target (whose yearly won
    amount is below 2^53), a plan whose projected annual dividend per share
    is a finite double asks for infinitely many shares, and, when the
    projected price is a finite positive double, for an infinite future
    capital: the division by the zero net dividend gives [inf] (numpy), not
    an error. *)
Theorem solve_goal64_full_tax_infinite g plan :
  g64_tax_rate g = f64_of_Z 100 ->
  (0 < g64_target_monthly_div_input g)%Z ->
  (g64_target_monthly_div_input g * 10000 * 12 < 2 ^ 53)%Z ->
  solve_goal64 g = inr plan ->
  (exists s m e, est_future_annual_dps64 plan = SpecFloat.S754_finite s m e) ->
  needed_shares64 plan = SpecFloat.S754_infinity false /\
  ((exists m e, est_future_price64 plan = SpecFloat.S754_finite false m e) ->
   needed_asset_future64 plan = SpecFloat.S754_infinity false).
Proof.
  intros Ht HT HT' H (s & m & e & Ed).
  destruct (f64_of_Z_pos (g64_target_monthly_div_input g * 10000 * 12)) as (mt & et & Et); [lia|].
  unfold solve_goal64 in H. rewrite Ht in H.
  destruct (py_pow64 _ _) as [err|d]; [discriminate|].
  destruct (f64le _ _) eqn:Hle; [discriminate|].
  injection H as <-. cbn [est_future_annual_dps64 needed_shares64 needed_asset_future64 est_future_price64] in *.
  rewrite Ed in Hle |- *. rewrite Et.
  replace (f64sub (f64_of_Z 1) (f64div (f64_of_Z 100) (f64_of_Z 100)))
    with (SpecFloat.S754_zero false) by (vm_compute; reflexivity).
  destruct s; [discriminate|].
  assert (Hsh : f64div (SpecFloat.S754_finite false mt et)
                       (f64mul (SpecFloat.S754_finite false m e) (SpecFloat.S754_zero false))
                = SpecFloat.S754_infinity false) by reflexivity.
  rewrite Hsh. split; [reflexivity|].
  intros (mp & ep & Ep). rewrite Ep. reflexivity.
Qed.

Lemma solve_goal64_full_tax_infinite_witness :
  let g := {| g64_price_krw := f64_of_Z 13000; g64_annual_div_usd := f64_of_Z 2; g64_rate := f64_of_Z 1300;
              g64_real_change_rate := f64_of_Z (-1); g64_tax_rate := f64_of_Z 100; g64_years := 3;
              g64_target_monthly_div_input := 100 |} in
  exists plan, solve_goal64 g = inr plan /\
    needed_shares64 plan = SpecFloat.S754_infinity false /\
    ((exists m e, est_future_price64 plan = SpecFloat.S754_finite false m e) ->
     needed_asset_future64 plan = SpecFloat.S754_infinity false).
Proof.
  cbv zeta.
  match goal with |- exists plan, solve_goal64 ?g = inr plan /\ _ =>
    destruct (solve_goal64 g) as [err|plan] eqn:Hs; [vm_compute in Hs; discriminate|];
    exists plan; split; [reflexivity|];
    apply (solve_goal64_full_tax_infinite g plan); [reflexivity | cbn; lia | cbn; lia | exact Hs |]
  end.
  revert Hs. vm_compute. intros Hs. injection Hs as <-. cbn. eauto.
Defined.
